(** * seesus: SDG detection, labelling and sustainability classification

    A shallow embedding of [seesus/seesus.py] and the properties of its
    matcher ([id_sus]), aggregator ([cat_sus]), labellers ([label_sdg],
    [label_target]) and catalog accessors ([show_syntax], [edit_syntax]).

    The data tables [SDG_keys], [see_keys], [goal_desc] and [tar_desc] are
    imported by the module from sibling data modules; here the mutable
    [SDG_keys] is a component of the interpreter state and the three static
    tables are parameters.  The regular-expression engine ([regex.search]
    with [IGNORECASE]) is a parameter as well. *)

From Stdlib Require Import ZArith Ascii String List.
From stdpp Require Import base decidable option list sets gmap strings.

Local Open Scope Z_scope.
Local Open Scope string_scope.
Local Open Scope list_scope.

(** ** Python values and exceptions *)

(** The values [id_sus] may be called with.  Only [PyStr] passes
    [isinstance(text, str)]. *)
#[warnings="-register-all"]
Inductive pyval : Type :=
| PyNone
| PyBool (b : bool)
| PyInt (z : Z)
| PyBytes (bs : list Byte.byte)
| PyStr (s : string)
| PyList (vs : list pyval).

Definition isinstance_str (v : pyval) : bool :=
  match v with
  | PyStr _ => true
  | _ => false
  end.

(** The text of the four [ValueError]s of the module.  The f-strings that
    interpolate the list of known ids keep that list as data. *)
Inductive message : Type :=
| Input_must_be_a_string
| Invalid_input_choose (ids : list string)
| Invalid_input_use (sdg_id : string) (ids : list string)
| Invalid_match_type (match_type : string).

Inductive exn : Type :=
| ValueError (msg : message)
| TypeError (msg : message)
| regex_error (pattern : string).

(** [isinstance(e, TypeError)]: what an [except TypeError] clause catches.
    [ValueError] and [TypeError] are unrelated subclasses of [Exception],
    and the engine's error derives from [Exception] directly. *)
Definition is_TypeError (e : exn) : bool :=
  match e with
  | TypeError _ => true
  | _ => false
  end.

Inductive result (A : Type) : Type :=
| Ok (a : A)
| Raise (e : exn).
Arguments Ok {A} a.
Arguments Raise {A} e.

(** ** The pattern catalog and the interpreter state *)

(** One entry of [SDG_keys]: a dict with the keys ["SDG_id"],
    ["SDG_keywords"] and ["match_type"]. *)
Record rule : Type := mk_rule {
  SDG_id : string;
  SDG_keywords : string;
  match_type : string
}.

Global Instance rule_eq_dec : EqDecision rule.
Proof. solve_decision. Defined.

(** What [print] writes: the list of dicts of [show_syntax], or a line of
    text. *)
Inductive output : Type :=
| out_rules (syntax : list rule)
| out_line (s : string).

(** The module-level state a call can read or change. *)
Record world : Type := mk_world {
  SDG_keys : list rule;
  stdout : list output
}.

(** A computation reads and writes the world and returns or raises; the
    world it leaves behind is observable in both cases. *)
Definition M (A : Type) : Type := world -> result A * world.

Definition ret {A} (a : A) : M A := fun w => (Ok a, w).

Definition bind {A B} (m : M A) (k : A -> M B) : M B :=
  fun w =>
    match m w with
    | (Ok a, w') => k a w'
    | (Raise e, w') => (Raise e, w')
    end.

Definition raise {A} (e : exn) : M A := fun w => (Raise e, w).

Definition lift {A} (r : result A) : M A := fun w => (r, w).

Definition read_keys : M (list rule) := fun w => (Ok (SDG_keys w), w).

Definition write_keys (keys : list rule) : M unit :=
  fun w => (Ok tt, {| SDG_keys := keys; stdout := stdout w |}).

Definition print (o : output) : M unit :=
  fun w => (Ok tt, {| SDG_keys := SDG_keys w; stdout := stdout w ++ [o] |}).

Declare Scope py_scope.
Delimit Scope py_scope with py.
Notation "x <~ m ;; k" := (bind m (fun x => k))
  (at level 100, m at next level, right associativity) : py_scope.
Notation "m ;;; k" := (bind m (fun _ => k))
  (at level 100, right associativity) : py_scope.
Local Open Scope py_scope.

(** ** Strings and sets *)

(** [s.split(sep)] for a one-character separator: the pieces between the
    occurrences of [sep], never an empty list. *)
Fixpoint split (sep : ascii) (s : string) : list string :=
  match s with
  | EmptyString => [EmptyString]
  | String c r =>
      if Ascii.eqb c sep then EmptyString :: split sep r
      else match split sep r with
           | [] => [String c EmptyString]
           | piece :: pieces => String c piece :: pieces
           end
  end.

(** [sdg_id.split("_")[0]] *)
Definition goal_prefix (sdg_id : string) : string :=
  hd EmptyString (split "_"%char sdg_id).

(** [list(set(xs))]: the elements of [xs] once each, in the order the set
    iterates, which the language leaves unspecified. *)
Definition list_set (xs : list string) : list string :=
  elements (list_to_set xs : gset string).

(** The characters of a string, in order. *)
Fixpoint chars (s : string) : list ascii :=
  match s with
  | EmptyString => []
  | String c r => c :: chars r
  end.

(** The number of occurrences of [x] in [l]. *)
Definition occurrences (x : string) (l : list string) : nat :=
  length (filter (fun y => y = x) l).

(** ** The matcher *)

Section Matcher.

(** [re_search pattern text] is [regex.search(pattern, text, IGNORECASE)]:
    [Some true] for a match object, [Some false] for [None], and [None]
    when the pattern does not compile and the engine raises. *)
Variable re_search : string -> string -> option bool.

(** The body of [for item in SDG_keys], with the three accumulators. *)
Fixpoint id_sus_loop (text : string) (keys : list rule)
    (sdgs targets matches : list string)
  : result (list string * list string * list string) :=
  match keys with
  | [] => Ok (sdgs, targets, matches)
  | item :: rest =>
      let sdg_id := SDG_id item in
      let sdg_keywords := SDG_keywords item in
      let mt := match_type item in
      match re_search sdg_keywords text with
      | None => Raise (regex_error sdg_keywords)
      | Some true =>
          id_sus_loop text rest
            (sdgs ++ [goal_prefix sdg_id])
            (targets ++ [sdg_id])
            (matches ++ [mt])
      | Some false => id_sus_loop text rest sdgs targets matches
      end
  end.

Definition id_sus (text : pyval)
  : M (list string * list string * list string) :=
  match text with
  | PyStr s =>
      keys <~ read_keys ;;
      r <~ lift (id_sus_loop s keys [] [] []) ;;
      let '(sdgs, targets, matches) := r in
      ret (list_set sdgs, list_set targets, list_set matches)
  | _ => raise (ValueError Input_must_be_a_string)
  end.

(** The rules whose pattern is found in [text], in catalog order. *)
Definition hits (text : string) (keys : list rule) : list rule :=
  filter (fun item => re_search (SDG_keywords item) text = Some true) keys.

(** Every pattern of [keys] is accepted by the engine on [text]. *)
Definition compiles (text : string) (keys : list rule) : Prop :=
  Forall (fun item => is_Some (re_search (SDG_keywords item) text)) keys.

End Matcher.

(** ** The aggregator *)

(** The dict with the three sustainability keys, holding counters while the
    loops run and booleans in the result. *)
Record see (A : Type) : Type := mk_see {
  social_sustainability : A;
  environmental_sustainability : A;
  economic_sustainability : A
}.
Arguments mk_see {A} _ _ _.
Arguments social_sustainability {A} _.
Arguments environmental_sustainability {A} _.
Arguments economic_sustainability {A} _.

(** One entry of [see_keys], as [item[:4]] unpacks it; the three flags are
    the values of [int(soc)], [int(env)] and [int(econ)]. *)
Record see_row : Type := mk_see_row {
  see_id : string;
  soc : Z;
  env : Z;
  econ : Z
}.

(** [for i in range(len(target))] for one [item] of [see_keys]. *)
Definition cat_sus_inner (item : see_row) (target : list string)
    (acc : see Z) : see Z :=
  foldl (fun acc target_i =>
           if decide (target_i = see_id item)
           then {| social_sustainability := social_sustainability acc + soc item;
                   environmental_sustainability :=
                     environmental_sustainability acc + env item;
                   economic_sustainability := economic_sustainability acc + econ item |}
           else acc)
        acc target.

Definition cat_sus_counts (see_keys : list see_row) (target : list string)
  : see Z :=
  foldl (fun acc item => cat_sus_inner item target acc)
        (mk_see 0 0 0) see_keys.

(** [True if see[key] > 0 else False] *)
Definition positive (v : Z) : bool := if decide (v > 0) then true else false.

Definition cat_sus (see_keys : list see_row) (target : list string)
  : see bool :=
  let counts := cat_sus_counts see_keys target in
  {| social_sustainability := positive (social_sustainability counts);
     environmental_sustainability := positive (environmental_sustainability counts);
     economic_sustainability := positive (economic_sustainability counts) |}.

(** ** The labellers *)

(** [for i in range(len(sdg_id))] for one row [(goal_id, desc)] of the
    description table. *)
Definition label_inner (row_id desc : string) (ids : list string)
    (acc : list string) : list string :=
  foldl (fun acc id_i => if decide (id_i = row_id) then acc ++ [desc] else acc)
        acc ids.

Definition label_sdg (goal_desc : list (string * string))
    (sdg_id : list string) : list string :=
  foldl (fun sdg_desc item =>
           let '(goal_id, desc) := item in
           label_inner goal_id desc sdg_id sdg_desc)
        [] goal_desc.

Definition label_target (tar_desc : list (string * string))
    (target_id : list string) : list string :=
  foldl (fun target_desc item =>
           let '(tar_id, desc) := item in
           label_inner tar_id desc target_id target_desc)
        [] tar_desc.

(** ** The classifier and the catalog accessors *)

Module SeeSus.

(** The attributes [__init__] sets. *)
Record t : Type := mk {
  sdg : list string;
  target : list string;
  match_ : list string;
  sdg_desc : list string;
  target_desc : list string;
  see_ : see bool
}.

Definition init (re_search : string -> string -> option bool)
    (see_keys : list see_row) (goal_desc tar_desc : list (string * string))
    (text : pyval) : M t :=
  r <~ id_sus re_search text ;;
  let '(sdg, target, match_) := r in
  let sdg_desc := label_sdg goal_desc sdg in
  let target_desc := label_target tar_desc target in
  let see_ := cat_sus see_keys target in
  ret (mk sdg target match_ sdg_desc target_desc see_).

(** [list(set([item["SDG_id"] for item in SDG_keys]))] *)
Definition known_ids (keys : list rule) : list string :=
  list_set (map SDG_id keys).

Definition show_syntax (sdg_id : string) : M unit :=
  keys <~ read_keys ;;
  let ids := known_ids keys in
  if decide (sdg_id ∉ ids)
  then raise (ValueError (Invalid_input_choose ids))
  else
    let syntax := filter (fun d => SDG_id d = sdg_id) keys in
    print (out_rules syntax).

(** [item.update({"SDG_keywords": new_syntax})] *)
Definition update_keywords (item : rule) (new_syntax : string) : rule :=
  {| SDG_id := SDG_id item;
     SDG_keywords := new_syntax;
     match_type := match_type item |}.

(** The [for item in SDG_keys] loop of [edit_syntax]; the dicts are
    changed in place, so the list keeps its length and order. *)
Fixpoint edit_loop (sdg_id new_syntax mt : string) (keys : list rule)
  : list rule :=
  match keys with
  | [] => []
  | item :: rest =>
      (if decide (SDG_id item = sdg_id ∧ match_type item = mt)
       then update_keywords item new_syntax
       else item) :: edit_loop sdg_id new_syntax mt rest
  end.

Definition edit_syntax (sdg_id new_syntax mt : string) : M unit :=
  keys <~ read_keys ;;
  let ids := known_ids keys in
  if decide (sdg_id ∉ ids)
  then raise (ValueError (Invalid_input_use sdg_id ids))
  else if decide (mt ∉ ["direct"; "indirect"])
  then raise (ValueError (Invalid_match_type mt))
  else
    write_keys (edit_loop sdg_id new_syntax mt keys) ;;;
    print (out_line ("The " +:+ mt +:+ " match syntax of " +:+ sdg_id
                       +:+ " has been updated.")).

(** What one pass of that loop does to one dict. *)
Definition edit_item (sdg_id new_syntax mt : string) (item : rule) : rule :=
  if decide (SDG_id item = sdg_id ∧ match_type item = mt)
  then update_keywords item new_syntax
  else item.

(** [match_type="indirect"] when the caller leaves it out. *)
Definition edit_syntax_default (sdg_id new_syntax : string) : M unit :=
  edit_syntax sdg_id new_syntax "indirect".

End SeeSus.

(** ** Closed forms used in the statements *)

(** The value a counter reaches: every row adds its flag once for each
    position of [target] holding the row's id. *)
Definition weighted (flag : see_row → Z) (see_keys : list see_row)
    (target : list string) : Z :=
  foldr (fun item s => flag item * Z.of_nat (occurrences (see_id item) target) + s)
        0 see_keys.

(** The labelling the specification words describe: the input ids in input
    order, each followed by the descriptions of its table entries. *)
Definition label_in_input_order (table : list (string * string))
    (ids : list string) : list string :=
  concat (map (fun id_i => map snd (filter (fun row => row.1 = id_i) table)) ids).

(** The labelling in table order: the rows in table order, each giving its
    description once for every position of the input holding its id. *)
Definition label_in_table_order (table : list (string * string))
    (ids : list string) : list string :=
  concat (map (fun row => replicate (occurrences row.1 ids) row.2) table).

(** ** A small catalog to run the definitions on *)

Module Demo.

(** A literal, case-sensitive substring test standing in for the engine;
    the one-character pattern ["("] is the one it refuses. *)
Fixpoint contains (pattern text : string) : bool :=
  String.prefix pattern text ||
  match text with
  | EmptyString => false
  | String _ rest => contains pattern rest
  end.

Definition search (pattern text : string) : option bool :=
  if String.eqb pattern "(" then None else Some (contains pattern text).

Definition keys : list rule :=
  [ mk_rule "SDG1_1" "SDG 1" "direct";
    mk_rule "SDG1_1" "poverty" "indirect";
    mk_rule "SDG2_1" "hunger" "indirect" ].

Definition start : world := {| SDG_keys := keys; stdout := [] |}.

Definition see_keys : list see_row :=
  [ mk_see_row "SDG1_1" 1 0 1; mk_see_row "SDG2_1" 1 0 0 ].

Definition goal_desc : list (string * string) :=
  [ ("SDG1", "No poverty"); ("SDG2", "Zero hunger") ].

Definition tar_desc : list (string * string) :=
  [ ("SDG1_1", "Eradicate extreme poverty");
    ("SDG2_1", "End hunger") ].

End Demo.

(** * Properties *)

(** Membership of a literal string in a literal list, and its negation. *)
Ltac among := rewrite list_elem_of_In; simpl; tauto.
Ltac not_among :=
  let H := fresh in
  rewrite list_elem_of_In; simpl; intros H;
  repeat (destruct H as [H|H]; [discriminate H|]); exact H.


(** ** Strings and sets *)

Lemma split_nonempty sep s : split sep s ≠ [].
Proof.
  destruct s as [|c r]; simpl; [done|].
  destruct (Ascii.eqb c sep); [done|].
  by destruct (split sep r).
Qed.

(** [goal_prefix s] is the part of [s] before its first underscore: it has
    no underscore, and [s] is either that part alone or that part, an
    underscore and a remainder. *)
Lemma goal_prefix_spec s :
  ("_"%char ∉ chars (goal_prefix s)) ∧
  (goal_prefix s = s ∨ ∃ rest, s = goal_prefix s +:+ String "_" rest).
Proof.
  unfold goal_prefix.
  induction s as [|c r [IHno IHcut]]; simpl.
  - split; [apply not_elem_of_nil | by left].
  - destruct (Ascii.eqb_spec c "_"%char) as [->|Hc]; simpl.
    + split; [apply not_elem_of_nil | right; by exists r].
    + pose proof (split_nonempty "_"%char r) as Hne.
      destruct (split "_"%char r) as [|piece pieces]; [done|]. simpl in *.
      split.
      * rewrite elem_of_cons. intros [Heq | Hin]; [by subst | done].
      * destruct IHcut as [-> | [rest ->]]; [by left|].
        right. by exists rest.
Qed.

Lemma elem_of_list_set x xs : x ∈ list_set xs ↔ x ∈ xs.
Proof. unfold list_set. by rewrite elem_of_elements, elem_of_list_to_set. Qed.

Lemma NoDup_list_set xs : NoDup (list_set xs).
Proof. unfold list_set. apply NoDup_elements. Qed.

Lemma occurrences_cons x y l :
  occurrences x (y :: l) =
  if decide (y = x) then S (occurrences x l) else occurrences x l.
Proof. unfold occurrences. rewrite filter_cons. by case_decide. Qed.

Lemma occurrences_app x l1 l2 :
  occurrences x (l1 ++ l2) = (occurrences x l1 + occurrences x l2)%nat.
Proof. unfold occurrences. by rewrite filter_app, length_app. Qed.

Lemma occurrences_zero x l : occurrences x l = 0%nat ↔ x ∉ l.
Proof.
  induction l as [|y l IH]; simpl.
  - split; [intros _; apply not_elem_of_nil | done].
  - rewrite occurrences_cons, not_elem_of_cons.
    case_decide as Hy.
    + subst. split; [done | by intros [? _]].
    + rewrite IH. split; [intros ?; split; [congruence | done] | by intros [_ ?]].
Qed.

Lemma occurrences_NoDup x l : NoDup l → x ∈ l → occurrences x l = 1%nat.
Proof.
  induction 1 as [|y l Hy Hnd IH]; [by intros ?%elem_of_nil|].
  rewrite occurrences_cons, elem_of_cons. intros [-> | Hin].
  - rewrite decide_True by done. f_equal. by apply occurrences_zero.
  - rewrite decide_False by (intros ->; done). by apply IH.
Qed.

(** ** The matcher *)

Section MatcherFacts.

Variable re_search : string -> string -> option bool.

Lemma id_sus_loop_ok text keys : ∀ sdgs targets matches,
  compiles re_search text keys →
  id_sus_loop re_search text keys sdgs targets matches =
  Ok (sdgs ++ map (fun item => goal_prefix (SDG_id item)) (hits re_search text keys),
      targets ++ map SDG_id (hits re_search text keys),
      matches ++ map match_type (hits re_search text keys)).
Proof.
  unfold hits.
  induction keys as [|item rest IH]; intros sdgs targets matches Hc; simpl.
  - by rewrite !app_nil_r.
  - apply Forall_cons in Hc as [[b Hb] Hrest].
    rewrite filter_cons, Hb. destruct b.
    + rewrite decide_True by done. rewrite IH by done. simpl.
      by rewrite <- !app_assoc.
    + rewrite decide_False by done. by apply IH.
Qed.

Lemma id_sus_loop_inv text keys : ∀ sdgs targets matches r,
  id_sus_loop re_search text keys sdgs targets matches = Ok r →
  compiles re_search text keys.
Proof.
  induction keys as [|item rest IH]; intros sdgs targets matches r; simpl.
  - intros _. apply Forall_nil_2.
  - destruct (re_search (SDG_keywords item) text) as [[]|] eqn:Hb;
      [| |done]; intros Hr; apply Forall_cons; (split; [by eexists|]);
      by eapply IH.
Qed.

(** What a returning call of [id_sus] returns, and what it leaves. *)
Lemma id_sus_returns text w sdgs targets matches w' :
  id_sus re_search (PyStr text) w = (Ok (sdgs, targets, matches), w') →
  w' = w ∧
  compiles re_search text (SDG_keys w) ∧
  sdgs = list_set (map (fun item => goal_prefix (SDG_id item))
                       (hits re_search text (SDG_keys w))) ∧
  targets = list_set (map SDG_id (hits re_search text (SDG_keys w))) ∧
  matches = list_set (map match_type (hits re_search text (SDG_keys w))).
Proof.
  unfold id_sus, bind, read_keys, lift, ret. simpl.
  destruct (id_sus_loop re_search text (SDG_keys w) [] [] [])
    as [[[s t] m]|e] eqn:Hloop; [|done].
  intros [= <- <- <- <-].
  pose proof (id_sus_loop_inv _ _ _ _ _ _ Hloop) as Hc.
  rewrite (id_sus_loop_ok _ _ _ _ _ Hc) in Hloop. simpl in Hloop.
  by injection Hloop as <- <- <-.
Qed.

(** [id_sus] returns on every string whose catalog patterns the engine
    accepts. *)
Lemma id_sus_total text w :
  compiles re_search text (SDG_keys w) →
  ∃ sdgs targets matches,
    id_sus re_search (PyStr text) w = (Ok (sdgs, targets, matches), w).
Proof.
  intros Hc. unfold id_sus, bind, read_keys, lift, ret. simpl.
  rewrite (id_sus_loop_ok _ _ _ _ _ Hc). by eexists _, _, _.
Qed.

End MatcherFacts.


(** ** Claims about the matcher *)


Lemma elem_of_map_list {A B} (f : A → B) (l : list A) (y : B) :
  y ∈ map f l ↔ ∃ x, x ∈ l ∧ f x = y.
Proof.
  change (map f l) with (f <$> l). rewrite list_elem_of_fmap.
  split; intros (x & H1 & H2); exists x; by split.
Qed.

(** C1. Whenever [id_sus] returns on a string, the goals it returns are, as
    a set, exactly the [split("_")[0]] prefixes of the targets it returns:
    each returned target's prefix is a returned goal and every returned goal
    is the prefix of a returned target. *)
Theorem id_sus_goals_are_target_prefixes
    (re_search : string → string → option bool) (text : string) (w w' : world)
    (sdgs targets matches : list string) :
  id_sus re_search (PyStr text) w = (Ok (sdgs, targets, matches), w') →
  (list_to_set sdgs : gset string) =
    set_map goal_prefix (list_to_set targets : gset string) ∧
  (∀ t, t ∈ targets → goal_prefix t ∈ sdgs) ∧
  (∀ g, g ∈ sdgs → ∃ t, t ∈ targets ∧ goal_prefix t = g).
Proof.
  intros (_ & _ & -> & -> & _)%id_sus_returns.
  set (hs := hits re_search text (SDG_keys w)).
  assert (Hiff : ∀ g, g ∈ list_set (map (fun item => goal_prefix (SDG_id item)) hs)
                 ↔ ∃ t, t ∈ list_set (map SDG_id hs) ∧ goal_prefix t = g).
  { intros g. rewrite elem_of_list_set, elem_of_map_list. split.
    - intros (item & Hin & <-). exists (SDG_id item). split; [|done].
      apply elem_of_list_set, elem_of_map_list. by exists item.
    - intros (t & (item & Hin & <-)%elem_of_list_set%elem_of_map_list & <-).
      by exists item. }
  split; [|split].
  - apply set_eq. intros g.
    rewrite elem_of_list_to_set, elem_of_map, Hiff.
    split; intros (t & H1 & H2).
    + exists t. by rewrite elem_of_list_to_set.
    + exists t. by rewrite elem_of_list_to_set in H2.
  - intros t Ht. apply Hiff. by exists t.
  - intros g Hg. by apply Hiff.
Qed.

Lemma id_sus_goals_are_target_prefixes_witness :
  id_sus Demo.search (PyStr "end poverty (SDG 1) and hunger") Demo.start
    = (Ok (["SDG1"; "SDG2"], ["SDG1_1"; "SDG2_1"], ["indirect"; "direct"]),
       Demo.start) ∧
  (list_to_set ["SDG1"; "SDG2"] : gset string) =
    set_map goal_prefix (list_to_set ["SDG1_1"; "SDG2_1"] : gset string).
Proof.
  split; [vm_compute; reflexivity|].
  apply (id_sus_goals_are_target_prefixes Demo.search
           "end poverty (SDG 1) and hunger" Demo.start Demo.start
           ["SDG1"; "SDG2"] ["SDG1_1"; "SDG2_1"] ["indirect"; "direct"]).
  vm_compute; reflexivity.
Defined.

(** C3, as the code has it.  [id_sus] called with a value that is not a
    string raises [ValueError("Input must be a string.")], returns nothing
    and leaves the state as it was; the exception is a [ValueError], which
    an [except TypeError] clause does not catch. *)
Theorem id_sus_rejects_non_strings
    (re_search : string → string → option bool) (text : pyval) (w : world) :
  isinstance_str text = false →
  id_sus re_search text w = (Raise (ValueError Input_must_be_a_string), w) ∧
  (∀ e w', id_sus re_search text w = (Raise e, w') → is_TypeError e = false).
Proof.
  intros Hns.
  assert (Hrun : id_sus re_search text w
                 = (Raise (ValueError Input_must_be_a_string), w))
    by (by destruct text).
  split; [exact Hrun|]. intros e w'. rewrite Hrun. by intros [= <- _].
Qed.

Lemma id_sus_rejects_non_strings_witness :
  id_sus Demo.search (PyInt 2030) Demo.start
    = (Raise (ValueError Input_must_be_a_string), Demo.start) ∧
  (∀ e w', id_sus Demo.search (PyInt 2030) Demo.start = (Raise e, w') →
           is_TypeError e = false).
Proof.
  apply (id_sus_rejects_non_strings Demo.search (PyInt 2030) Demo.start).
  reflexivity.
Defined.

(** C3, as stated, fails: on the integer [2030], which is not a string,
    [id_sus] raises, and what it raises is not a [TypeError], with any
    message, but a [ValueError]. *)
Lemma id_sus_raises_no_TypeError :
  isinstance_str (PyInt 2030) = false ∧
  (∃ e, id_sus Demo.search (PyInt 2030) Demo.start = (Raise e, Demo.start) ∧
        is_TypeError e = false ∧
        e = ValueError Input_must_be_a_string) ∧
  (∀ msg, id_sus Demo.search (PyInt 2030) Demo.start
          ≠ (Raise (TypeError msg), Demo.start)).
Proof.
  split; [reflexivity|]. split.
  - exists (ValueError Input_must_be_a_string). by repeat split.
  - intros msg. discriminate.
Qed.

(** C6. When a target has a direct rule and an indirect rule in the catalog
    and both patterns are found in the text, [id_sus] goes through every
    rule: it returns as soon as the engine accepts every pattern of the
    catalog, and every result it returns has both ["direct"] and
    ["indirect"] among its match types and the target exactly once among its
    targets. *)
Theorem id_sus_both_rules_recorded
    (re_search : string → string → option bool) (text : string) (w : world)
    (target direct_pattern indirect_pattern : string) :
  mk_rule target direct_pattern "direct" ∈ SDG_keys w →
  mk_rule target indirect_pattern "indirect" ∈ SDG_keys w →
  re_search direct_pattern text = Some true →
  re_search indirect_pattern text = Some true →
  (compiles re_search text (SDG_keys w) →
   ∃ sdgs targets matches,
     id_sus re_search (PyStr text) w = (Ok (sdgs, targets, matches), w)) ∧
  (∀ sdgs targets matches w',
     id_sus re_search (PyStr text) w = (Ok (sdgs, targets, matches), w') →
     "direct" ∈ matches ∧ "indirect" ∈ matches ∧
     occurrences target targets = 1%nat).
Proof.
  intros Hd Hi Hmd Hmi. split; [apply id_sus_total|].
  intros sdgs targets matches w' (_ & _ & _ & -> & ->)%id_sus_returns.
  assert (Hhd : mk_rule target direct_pattern "direct"
                  ∈ hits re_search text (SDG_keys w))
    by (apply list_elem_of_filter; by split).
  assert (Hhi : mk_rule target indirect_pattern "indirect"
                  ∈ hits re_search text (SDG_keys w))
    by (apply list_elem_of_filter; by split).
  split; [|split].
  - apply elem_of_list_set, elem_of_map_list.
    eexists; split; [exact Hhd | reflexivity].
  - apply elem_of_list_set, elem_of_map_list.
    eexists; split; [exact Hhi | reflexivity].
  - apply occurrences_NoDup; [apply NoDup_list_set|].
    apply elem_of_list_set, elem_of_map_list.
    eexists; split; [exact Hhd | reflexivity].
Qed.

Lemma id_sus_both_rules_recorded_witness :
  id_sus Demo.search (PyStr "end poverty (SDG 1) and hunger") Demo.start
    = (Ok (["SDG1"; "SDG2"], ["SDG1_1"; "SDG2_1"], ["indirect"; "direct"]),
       Demo.start) ∧
  "direct" ∈ ["indirect"; "direct"] ∧ "indirect" ∈ ["indirect"; "direct"] ∧
  occurrences "SDG1_1" ["SDG1_1"; "SDG2_1"] = 1%nat.
Proof.
  assert (Hrun :
    id_sus Demo.search (PyStr "end poverty (SDG 1) and hunger") Demo.start
      = (Ok (["SDG1"; "SDG2"], ["SDG1_1"; "SDG2_1"], ["indirect"; "direct"]),
         Demo.start))
    by (vm_compute; reflexivity).
  split; [exact Hrun|].
  refine (proj2 (id_sus_both_rules_recorded Demo.search
                   "end poverty (SDG 1) and hunger" Demo.start
                   "SDG1_1" "SDG 1" "poverty" _ _ _ _)
                ["SDG1"; "SDG2"] ["SDG1_1"; "SDG2_1"] ["indirect"; "direct"]
                Demo.start Hrun).
  - among.
  - among.
  - reflexivity.
  - reflexivity.
Defined.

(** C7. [id_sus] leaves the whole state (catalog and output) as it found
    it, whether it returns or raises; its outcome depends on the state only
    through the catalog; so a second call on the same argument gives the
    same outcome as the first. *)
Theorem id_sus_pure
    (re_search : string → string → option bool) (text : pyval) (w : world) :
  (id_sus re_search text w).2 = w ∧
  id_sus re_search text (id_sus re_search text w).2 = id_sus re_search text w ∧
  (∀ w2, SDG_keys w2 = SDG_keys w →
         (id_sus re_search text w2).1 = (id_sus re_search text w).1).
Proof.
  assert (Hsame : ∀ v, (id_sus re_search text v).2 = v).
  { intros v. destruct text; try reflexivity.
    unfold id_sus, bind, read_keys, lift, ret. simpl.
    by destruct (id_sus_loop re_search s (SDG_keys v) [] [] []) as [[[? ?] ?]|]. }
  split; [apply Hsame|]. split; [by rewrite Hsame|].
  intros w2 Hk. destruct text; try reflexivity.
  unfold id_sus, bind, read_keys, lift, ret. simpl. rewrite Hk.
  by destruct (id_sus_loop re_search s (SDG_keys w) [] [] []) as [[[? ?] ?]|].
Qed.

(** ** The aggregator *)

Lemma cat_sus_inner_spec item target : ∀ acc,
  cat_sus_inner item target acc =
  {| social_sustainability :=
       social_sustainability acc + soc item * Z.of_nat (occurrences (see_id item) target);
     environmental_sustainability :=
       environmental_sustainability acc + env item * Z.of_nat (occurrences (see_id item) target);
     economic_sustainability :=
       economic_sustainability acc + econ item * Z.of_nat (occurrences (see_id item) target) |}.
Proof.
  unfold cat_sus_inner.
  induction target as [|t target IH]; intros [a b c]; simpl.
  - unfold occurrences; simpl. f_equal; lia.
  - rewrite occurrences_cons. case_decide; rewrite IH; simpl; f_equal; lia.
Qed.

Lemma cat_sus_loop_spec target see_keys : ∀ acc,
  foldl (fun acc item => cat_sus_inner item target acc) acc see_keys =
  {| social_sustainability := social_sustainability acc + weighted soc see_keys target;
     environmental_sustainability :=
       environmental_sustainability acc + weighted env see_keys target;
     economic_sustainability := economic_sustainability acc + weighted econ see_keys target |}.
Proof.
  induction see_keys as [|item see_keys IH]; intros [a b c]; simpl.
  - f_equal; lia.
  - rewrite IH, cat_sus_inner_spec. simpl. f_equal; lia.
Qed.

Lemma cat_sus_counts_spec see_keys target :
  cat_sus_counts see_keys target =
  mk_see (weighted soc see_keys target) (weighted env see_keys target)
         (weighted econ see_keys target).
Proof. unfold cat_sus_counts. by rewrite cat_sus_loop_spec. Qed.

Lemma weighted_nonneg (flag : see_row → Z) (see_keys : list see_row)
    (target : list string) :
  Forall (fun item => (0 ≤ flag item)%Z) see_keys → (0 ≤ weighted flag see_keys target)%Z.
Proof.
  induction 1 as [|item see_keys Hitem _ IH]; simpl; [lia|]. nia.
Qed.

Lemma weighted_positive (flag : see_row → Z) (see_keys : list see_row)
    (target : list string) :
  Forall (fun item => (0 ≤ flag item)%Z) see_keys →
  weighted flag see_keys target > 0 ↔
  ∃ t item, t ∈ target ∧ item ∈ see_keys ∧ see_id item = t ∧ flag item ≠ 0.
Proof.
  induction 1 as [|item see_keys Hitem Hrest IH]; simpl.
  - split; [lia|]. by intros (t & item & _ & ?%elem_of_nil & _).
  - pose proof (weighted_nonneg flag see_keys target Hrest) as Hge.
    pose proof (occurrences_zero (see_id item) target) as Hocc.
    split.
    + intros Hpos.
      destruct (decide (flag item * Z.of_nat (occurrences (see_id item) target) = 0))
        as [Hz|Hnz].
      * destruct IH as [IH _]. destruct IH as (t & item' & ? & ? & ? & ?); [lia|].
        exists t, item'. rewrite elem_of_cons. auto.
      * exists (see_id item), item. rewrite elem_of_cons.
        split; [|split; [auto|split; [done|nia]]].
        destruct (decide (see_id item ∈ target)) as [|Hni]; [done|].
        apply Hocc in Hni. rewrite Hni in Hnz. lia.
    + intros (t & item' & Ht & [->|Hin]%elem_of_cons & Hid & Hflag).
      * subst t.
        assert (occurrences (see_id item) target ≠ 0%nat) by (rewrite Hocc; auto).
        nia.
      * assert (weighted flag see_keys target > 0)
          by (apply IH; by exists t, item').
        nia.
Qed.

Lemma positive_true (v : Z) : positive v = true ↔ v > 0.
Proof. unfold positive. case_decide; split; (done || lia). Qed.

(** C2. With the bool-as-int (non-negative) flags of the Dimension Map,
    [cat_sus] sets a dimension to [True] exactly when some target id of the
    input list has a row in [see_keys] whose flag for that dimension is
    nonzero; on the empty list all three are [False]. *)
Theorem cat_sus_flags (see_keys : list see_row) (target : list string) :
  Forall (fun item => (0 ≤ soc item)%Z ∧ (0 ≤ env item)%Z ∧ (0 ≤ econ item)%Z) see_keys →
  (social_sustainability (cat_sus see_keys target) = true ↔
     ∃ t item, t ∈ target ∧ item ∈ see_keys ∧ see_id item = t ∧ soc item ≠ 0) ∧
  (environmental_sustainability (cat_sus see_keys target) = true ↔
     ∃ t item, t ∈ target ∧ item ∈ see_keys ∧ see_id item = t ∧ env item ≠ 0) ∧
  (economic_sustainability (cat_sus see_keys target) = true ↔
     ∃ t item, t ∈ target ∧ item ∈ see_keys ∧ see_id item = t ∧ econ item ≠ 0) ∧
  cat_sus see_keys [] = mk_see false false false.
Proof.
  intros Hflags. unfold cat_sus. rewrite !cat_sus_counts_spec. simpl.
  rewrite !positive_true.
  split; [|split; [|split]].
  - apply weighted_positive. eapply Forall_impl; [exact Hflags|]. by intros ? (? & ? & ?).
  - apply weighted_positive. eapply Forall_impl; [exact Hflags|]. by intros ? (? & ? & ?).
  - apply weighted_positive. eapply Forall_impl; [exact Hflags|]. by intros ? (? & ? & ?).
  - assert (Hz : ∀ flag, weighted flag see_keys [] = 0).
    { intros flag. clear Hflags. induction see_keys as [|? ? IH]; simpl; [done|].
      rewrite IH. unfold occurrences. simpl. lia. }
    by rewrite !Hz.
Qed.

Lemma cat_sus_flags_witness :
  Forall (fun item => (0 ≤ soc item)%Z ∧ (0 ≤ env item)%Z ∧ (0 ≤ econ item)%Z) Demo.see_keys ∧
  cat_sus Demo.see_keys ["SDG2_1"] = mk_see true false false ∧
  cat_sus Demo.see_keys [] = mk_see false false false.
Proof.
  assert (H : Forall (fun item => (0 ≤ soc item)%Z ∧ (0 ≤ env item)%Z ∧ (0 ≤ econ item)%Z)
                     Demo.see_keys)
    by (repeat constructor; simpl; lia).
  split; [exact H|]. split; [reflexivity|].
  apply (cat_sus_flags Demo.see_keys ["SDG2_1"] H).
Defined.

(** ** The labellers *)

Lemma label_inner_spec row_id desc ids : ∀ acc,
  label_inner row_id desc ids acc = acc ++ replicate (occurrences row_id ids) desc.
Proof.
  unfold label_inner.
  induction ids as [|i ids IH]; intros acc; simpl.
  - unfold occurrences. simpl. by rewrite app_nil_r.
  - rewrite occurrences_cons. case_decide; rewrite IH; [|done].
    by rewrite <- app_assoc.
Qed.

Lemma label_loop_spec ids table : ∀ acc,
  foldl (fun acc (item : string * string) =>
           let '(row_id, desc) := item in label_inner row_id desc ids acc)
        acc table
  = acc ++ label_in_table_order table ids.
Proof.
  unfold label_in_table_order.
  induction table as [|[row_id desc] table IH]; intros acc; simpl.
  - by rewrite app_nil_r.
  - rewrite IH, label_inner_spec. by rewrite <- app_assoc.
Qed.

Lemma label_sdg_spec goal_desc sdg_id :
  label_sdg goal_desc sdg_id = label_in_table_order goal_desc sdg_id.
Proof. unfold label_sdg. by rewrite label_loop_spec. Qed.

Lemma label_target_spec tar_desc target_id :
  label_target tar_desc target_id = label_in_table_order tar_desc target_id.
Proof. unfold label_target. by rewrite label_loop_spec. Qed.

Lemma table_order_cons table i ids :
  label_in_table_order table (i :: ids) ≡ₚ
  map snd (filter (fun row => row.1 = i) table) ++ label_in_table_order table ids.
Proof.
  unfold label_in_table_order.
  induction table as [|[row_id desc] table IH]; simpl; [done|].
  rewrite occurrences_cons, filter_cons. simpl.
  destruct (decide (i = row_id)) as [->|Hne].
  - rewrite decide_True by done. simpl. f_equiv.
    rewrite IH. apply Permutation_app_swap_app.
  - rewrite decide_False by congruence. rewrite IH.
    apply Permutation_app_swap_app.
Qed.

Lemma table_order_input_order table ids :
  label_in_table_order table ids ≡ₚ label_in_input_order table ids.
Proof.
  induction ids as [|i ids IH].
  - unfold label_in_table_order, label_in_input_order, occurrences. simpl.
    induction table as [|row table IHt]; simpl; [done|]. exact IHt.
  - rewrite table_order_cons. unfold label_in_input_order in *. simpl.
    by rewrite IH.
Qed.

Lemma table_order_pairs table ids :
  label_in_table_order table ids =
  map (fun p : (string * string) * string => p.1.2)
      (filter (fun p : (string * string) * string => p.2 = p.1.1)
              (list_prod table ids)).
Proof.
  unfold label_in_table_order.
  induction table as [|[row_id desc] table IH]; simpl; [done|].
  rewrite filter_app, map_app, <- IH. f_equal. clear IH.
  induction ids as [|i ids IHi]; simpl; [done|].
  rewrite occurrences_cons, filter_cons. simpl.
  case_decide; simpl; by rewrite IHi.
Qed.

Lemma occurrences_replicate d n : occurrences d (replicate n d) = n.
Proof.
  induction n as [|n IH]; simpl; [done|].
  rewrite occurrences_cons, decide_True by done. by rewrite IH.
Qed.

Lemma table_order_repeats table ids g d :
  (g, d) ∈ table →
  (occurrences g ids ≤ occurrences d (label_in_table_order table ids))%nat.
Proof.
  unfold label_in_table_order.
  induction table as [|row table IH]; [by intros ?%elem_of_nil|].
  simpl. rewrite occurrences_app. intros [<-|Hin]%elem_of_cons.
  - simpl. rewrite occurrences_replicate. lia.
  - specialize (IH Hin). lia.
Qed.

Lemma table_order_skip table ids1 u ids2 :
  u ∉ map fst table →
  label_in_table_order table (ids1 ++ u :: ids2) =
  label_in_table_order table (ids1 ++ ids2).
Proof.
  unfold label_in_table_order.
  induction table as [|row table IH]; simpl; [done|].
  rewrite not_elem_of_cons. intros [Hne Hnin].
  rewrite IH by done. f_equal.
  rewrite !occurrences_app, occurrences_cons.
  by rewrite decide_False.
Qed.

Lemma table_order_unknown table ids :
  (∀ i, i ∈ ids → i ∉ map fst table) → label_in_table_order table ids = [].
Proof.
  intros Hunknown. unfold label_in_table_order.
  induction table as [|row table IH]; simpl; [done|].
  assert (Hz : occurrences row.1 ids = 0%nat).
  { apply occurrences_zero. intros Hin. apply (Hunknown _ Hin).
    simpl. apply elem_of_cons. by left. }
  rewrite Hz. simpl. apply IH.
  intros i Hi Hin. apply (Hunknown _ Hi). simpl. apply elem_of_cons. by right.
Qed.

(** C8, as the code has it.  [label_sdg] and [label_target] order their
    output by the description table, not by the input: the rows come in
    table order, each giving its description once for every position of the
    input that holds its id.  The output is a rearrangement of the
    input-order labelling: the same descriptions, as often. *)
Theorem labels_follow_table_order (table : list (string * string))
    (ids : list string) :
  label_sdg table ids = label_in_table_order table ids ∧
  label_target table ids = label_in_table_order table ids ∧
  label_sdg table ids ≡ₚ label_in_input_order table ids ∧
  label_target table ids ≡ₚ label_in_input_order table ids.
Proof.
  rewrite ?label_sdg_spec, ?label_target_spec.
  repeat split; apply table_order_input_order.
Qed.

(** C8, as stated, fails: for the ids in the order [SDG2], [SDG1] the
    input-order labelling starts with the description of [SDG2], while both
    functions start with the description of [SDG1], the first table row. *)
Lemma labels_not_in_input_order :
  label_in_input_order Demo.goal_desc ["SDG2"; "SDG1"] = ["Zero hunger"; "No poverty"] ∧
  label_sdg Demo.goal_desc ["SDG2"; "SDG1"] = ["No poverty"; "Zero hunger"] ∧
  label_sdg Demo.goal_desc ["SDG2"; "SDG1"]
    ≠ label_in_input_order Demo.goal_desc ["SDG2"; "SDG1"] ∧
  label_in_input_order Demo.tar_desc ["SDG2_1"; "SDG1_1"]
    = ["End hunger"; "Eradicate extreme poverty"] ∧
  label_target Demo.tar_desc ["SDG2_1"; "SDG1_1"]
    = ["Eradicate extreme poverty"; "End hunger"] ∧
  label_target Demo.tar_desc ["SDG2_1"; "SDG1_1"]
    ≠ label_in_input_order Demo.tar_desc ["SDG2_1"; "SDG1_1"].
Proof. repeat split; (reflexivity || (vm_compute; discriminate)). Qed.

(** C9. The labellers are total and skip unknown ids: dropping from the
    input an id that no row of the table carries leaves the output as it
    was, and an input of unknown ids only gives the empty list. *)
Theorem labels_skip_unknown_ids (table : list (string * string)) :
  (∀ ids1 u ids2, u ∉ map fst table →
     label_sdg table (ids1 ++ u :: ids2) = label_sdg table (ids1 ++ ids2) ∧
     label_target table (ids1 ++ u :: ids2) = label_target table (ids1 ++ ids2)) ∧
  (∀ ids, (∀ i, i ∈ ids → i ∉ map fst table) →
     label_sdg table ids = [] ∧ label_target table ids = []).
Proof.
  split.
  - intros ids1 u ids2 Hu. rewrite ?label_sdg_spec, ?label_target_spec.
    split; by apply table_order_skip.
  - intros ids Hunknown. rewrite ?label_sdg_spec, ?label_target_spec.
    split; by apply table_order_unknown.
Qed.

Lemma labels_skip_unknown_ids_witness :
  label_sdg Demo.goal_desc ["SDG1"; "SDG99"; "SDG2"] = ["No poverty"; "Zero hunger"] ∧
  label_sdg Demo.goal_desc ["SDG1"; "SDG99"; "SDG2"]
    = label_sdg Demo.goal_desc ["SDG1"; "SDG2"] ∧
  label_target Demo.tar_desc ["SDG99_1"; "goal"] = [].
Proof.
  split; [reflexivity|]. split.
  - apply (proj1 (labels_skip_unknown_ids Demo.goal_desc) ["SDG1"] "SDG99" ["SDG2"]).
    not_among.
  - apply (proj2 (labels_skip_unknown_ids Demo.tar_desc) ["SDG99_1"; "goal"]).
    intros i. rewrite !list_elem_of_In. simpl.
    intros [<-|[<-|[]]]; intuition discriminate.
Defined.

(** C10. The output of the labellers has one entry for each pair of a table
    row and an input position holding the row's id, rows first and positions
    second; so an id that occurs several times in the input has the
    description of each of its rows at least as often in the output. *)
Theorem labels_one_entry_per_pair (table : list (string * string))
    (ids : list string) :
  label_sdg table ids =
    map (fun p : (string * string) * string => p.1.2)
        (filter (fun p : (string * string) * string => p.2 = p.1.1)
                (list_prod table ids)) ∧
  label_target table ids =
    map (fun p : (string * string) * string => p.1.2)
        (filter (fun p : (string * string) * string => p.2 = p.1.1)
                (list_prod table ids)) ∧
  (∀ g d, (g, d) ∈ table →
     (occurrences g ids ≤ occurrences d (label_sdg table ids))%nat ∧
     (occurrences g ids ≤ occurrences d (label_target table ids))%nat).
Proof.
  rewrite ?label_sdg_spec, ?label_target_spec.
  split; [apply table_order_pairs|]. split; [apply table_order_pairs|].
  intros g d Hin. split; by apply table_order_repeats.
Qed.

(** ** The catalog accessors *)

Section CatalogFacts.
Import SeeSus.

Lemma edit_loop_fmap sdg_id new_syntax mt keys :
  edit_loop sdg_id new_syntax mt keys = edit_item sdg_id new_syntax mt <$> keys.
Proof. induction keys as [|item keys IH]; simpl; [done|]. by rewrite IH. Qed.

Lemma edit_item_id sdg_id new_syntax mt item :
  SDG_id (edit_item sdg_id new_syntax mt item) = SDG_id item.
Proof. unfold edit_item. by case_decide. Qed.

Lemma edit_item_match_type sdg_id new_syntax mt item :
  match_type (edit_item sdg_id new_syntax mt item) = match_type item.
Proof. unfold edit_item. by case_decide. Qed.

Lemma edit_loop_ids sdg_id new_syntax mt keys :
  map SDG_id (edit_loop sdg_id new_syntax mt keys) = map SDG_id keys.
Proof.
  induction keys as [|item keys IH]; simpl; [done|].
  rewrite IH. f_equal. apply edit_item_id.
Qed.

Lemma known_ids_edit_loop sdg_id new_syntax mt keys :
  known_ids (edit_loop sdg_id new_syntax mt keys) = known_ids keys.
Proof. unfold known_ids. by rewrite edit_loop_ids. Qed.

Lemma show_syntax_unknown sdg_id w :
  sdg_id ∉ known_ids (SDG_keys w) →
  show_syntax sdg_id w =
  (Raise (ValueError (Invalid_input_choose (known_ids (SDG_keys w)))), w).
Proof.
  intros Hid. unfold show_syntax, bind, read_keys. simpl.
  by rewrite decide_True.
Qed.

Lemma show_syntax_known sdg_id w :
  sdg_id ∈ known_ids (SDG_keys w) →
  show_syntax sdg_id w =
  (Ok tt, {| SDG_keys := SDG_keys w;
             stdout := stdout w ++
               [out_rules (filter (fun d => SDG_id d = sdg_id) (SDG_keys w))] |}).
Proof.
  intros Hid. unfold show_syntax, bind, read_keys. simpl.
  rewrite decide_False; [done|]. by intros Hn.
Qed.

Lemma edit_syntax_unknown sdg_id new_syntax mt w :
  sdg_id ∉ known_ids (SDG_keys w) →
  edit_syntax sdg_id new_syntax mt w =
  (Raise (ValueError (Invalid_input_use sdg_id (known_ids (SDG_keys w)))), w).
Proof.
  intros Hid. unfold edit_syntax, bind, read_keys. simpl.
  by rewrite decide_True.
Qed.

Lemma edit_syntax_bad_match_type sdg_id new_syntax mt w :
  sdg_id ∈ known_ids (SDG_keys w) →
  mt ∉ ["direct"; "indirect"] →
  edit_syntax sdg_id new_syntax mt w = (Raise (ValueError (Invalid_match_type mt)), w).
Proof.
  intros Hid Hmt. unfold edit_syntax, bind, read_keys. simpl.
  rewrite decide_False by (by intros Hn). by rewrite decide_True.
Qed.

Lemma edit_syntax_ok sdg_id new_syntax mt w :
  sdg_id ∈ known_ids (SDG_keys w) →
  mt ∈ ["direct"; "indirect"] →
  edit_syntax sdg_id new_syntax mt w =
  (Ok tt,
   {| SDG_keys := edit_loop sdg_id new_syntax mt (SDG_keys w);
      stdout := stdout w ++
        [out_line ("The " +:+ mt +:+ " match syntax of " +:+ sdg_id
                     +:+ " has been updated.")] |}).
Proof.
  intros Hid Hmt. unfold edit_syntax, bind, read_keys, write_keys, print. simpl.
  rewrite decide_False by (by intros Hn).
  rewrite decide_False by (by intros Hn). done.
Qed.

End CatalogFacts.

(** C4. [show_syntax] and [edit_syntax] raise a [ValueError] on an id that
    is not among the catalog's ids, [edit_syntax] raises one on a match type
    other than ["direct"] and ["indirect"], and whenever either of them
    raises, the state (the catalog with every pattern, and the output) is
    the one the call started from. *)
Theorem catalog_errors_change_nothing (sdg_id new_syntax mt : string) (w : world) :
  (sdg_id ∉ SeeSus.known_ids (SDG_keys w) →
     SeeSus.show_syntax sdg_id w =
       (Raise (ValueError (Invalid_input_choose (SeeSus.known_ids (SDG_keys w)))), w) ∧
     SeeSus.edit_syntax sdg_id new_syntax mt w =
       (Raise (ValueError (Invalid_input_use sdg_id (SeeSus.known_ids (SDG_keys w)))), w)) ∧
  (mt ∉ ["direct"; "indirect"] →
     ∃ msg, SeeSus.edit_syntax sdg_id new_syntax mt w = (Raise (ValueError msg), w)) ∧
  (∀ e w', SeeSus.show_syntax sdg_id w = (Raise e, w') ∨
           SeeSus.edit_syntax sdg_id new_syntax mt w = (Raise e, w') →
           w' = w).
Proof.
  split; [|split].
  - intros Hid. split; [by apply show_syntax_unknown | by apply edit_syntax_unknown].
  - intros Hmt. destruct (decide (sdg_id ∈ SeeSus.known_ids (SDG_keys w))) as [Hid|Hid].
    + eexists. by apply edit_syntax_bad_match_type.
    + eexists. by apply edit_syntax_unknown.
  - intros e w' [Hshow|Hedit].
    + destruct (decide (sdg_id ∈ SeeSus.known_ids (SDG_keys w))) as [Hid|Hid].
      * by rewrite show_syntax_known in Hshow.
      * rewrite show_syntax_unknown in Hshow by done. congruence.
    + destruct (decide (sdg_id ∈ SeeSus.known_ids (SDG_keys w))) as [Hid|Hid].
      * destruct (decide (mt ∈ ["direct"; "indirect"])) as [Hmt|Hmt].
        -- by rewrite edit_syntax_ok in Hedit.
        -- rewrite edit_syntax_bad_match_type in Hedit by done. congruence.
      * rewrite edit_syntax_unknown in Hedit by done. congruence.
Qed.

Lemma catalog_errors_change_nothing_witness :
  SeeSus.show_syntax "SDG9_1" Demo.start
    = (Raise (ValueError (Invalid_input_choose ["SDG1_1"; "SDG2_1"])), Demo.start) ∧
  SeeSus.edit_syntax "SDG9_1" "industry" "direct" Demo.start
    = (Raise (ValueError (Invalid_input_use "SDG9_1" ["SDG1_1"; "SDG2_1"])), Demo.start) ∧
  ∃ msg, SeeSus.edit_syntax "SDG1_1" "the poor" "both" Demo.start
    = (Raise (ValueError msg), Demo.start).
Proof.
  pose proof (catalog_errors_change_nothing "SDG9_1" "industry" "direct" Demo.start)
    as [Hid _].
  pose proof (catalog_errors_change_nothing "SDG1_1" "the poor" "both" Demo.start)
    as (_ & Hmt & _).
  assert (Hunknown : "SDG9_1" ∉ SeeSus.known_ids (SDG_keys Demo.start)).
  { replace (SeeSus.known_ids (SDG_keys Demo.start)) with ["SDG1_1"; "SDG2_1"]
      by (vm_compute; reflexivity).
    not_among. }
  assert (Hboth : "both" ∉ ["direct"; "indirect"]).
  { not_among. }
  destruct (Hid Hunknown) as [Hshow Hedit].
  split; [exact Hshow|]. split; [exact Hedit|]. exact (Hmt Hboth).
Defined.

(** C5. A call of [edit_syntax] that passes both checks returns, keeps the
    catalog's length and order, gives every rule with the given id and match
    type the new pattern, leaves every other rule as it was (no id and no
    match type changes anywhere), and adds one line to the output; a
    [show_syntax] of the same id right after it prints the rules of that id
    from the edited catalog, where each rule of the edited match type has the
    new pattern. *)
Theorem edit_syntax_replaces_and_frames (sdg_id new_syntax mt : string) (w : world) :
  sdg_id ∈ SeeSus.known_ids (SDG_keys w) →
  mt ∈ ["direct"; "indirect"] →
  ∃ w', SeeSus.edit_syntax sdg_id new_syntax mt w = (Ok tt, w') ∧
    length (SDG_keys w') = length (SDG_keys w) ∧
    (∀ i item, SDG_keys w !! i = Some item →
       ∃ item', SDG_keys w' !! i = Some item' ∧
         SDG_id item' = SDG_id item ∧
         match_type item' = match_type item ∧
         (SDG_id item = sdg_id ∧ match_type item = mt →
            SDG_keywords item' = new_syntax) ∧
         (¬ (SDG_id item = sdg_id ∧ match_type item = mt) → item' = item)) ∧
    ∃ syntax,
      SeeSus.show_syntax sdg_id w' =
        (Ok tt, {| SDG_keys := SDG_keys w';
                   stdout := stdout w' ++ [out_rules syntax] |}) ∧
      syntax = filter (fun d => SDG_id d = sdg_id) (SDG_keys w') ∧
      (∀ d, d ∈ syntax → match_type d = mt → SDG_keywords d = new_syntax) ∧
      (∀ old, mk_rule sdg_id old mt ∈ SDG_keys w →
              mk_rule sdg_id new_syntax mt ∈ syntax).
Proof.
  intros Hid Hmt. eexists. split; [by apply edit_syntax_ok|]. simpl.
  rewrite edit_loop_fmap.
  split; [by rewrite length_fmap|]. split.
  - intros i item Hi. exists (SeeSus.edit_item sdg_id new_syntax mt item).
    rewrite list_lookup_fmap, Hi. simpl.
    split; [done|]. split; [apply edit_item_id|].
    split; [apply edit_item_match_type|].
    unfold SeeSus.edit_item. split; intros Hc.
    + by rewrite decide_True.
    + by rewrite decide_False.
  - eexists. split; [|split; [reflexivity|split]].
    + rewrite show_syntax_known; [done|]. simpl.
      by rewrite <- edit_loop_fmap, known_ids_edit_loop.
    + intros d [Hd (item & -> & Hin)%list_elem_of_fmap]%list_elem_of_filter Hdmt.
      rewrite edit_item_id in Hd. rewrite edit_item_match_type in Hdmt.
      unfold SeeSus.edit_item. by rewrite decide_True.
    + intros old Hold. apply list_elem_of_filter. split; [done|].
      apply list_elem_of_fmap. exists (mk_rule sdg_id old mt). split; [|done].
      unfold SeeSus.edit_item. by rewrite decide_True.
Qed.

Lemma edit_syntax_replaces_and_frames_witness :
  SeeSus.edit_syntax "SDG1_1" "eradicate extreme poverty" "direct" Demo.start
    = (Ok tt,
       {| SDG_keys :=
            [ mk_rule "SDG1_1" "eradicate extreme poverty" "direct";
              mk_rule "SDG1_1" "poverty" "indirect";
              mk_rule "SDG2_1" "hunger" "indirect" ];
          stdout :=
            [out_line "The direct match syntax of SDG1_1 has been updated."] |}) ∧
  ∃ w', SeeSus.edit_syntax "SDG1_1" "eradicate extreme poverty" "direct" Demo.start
          = (Ok tt, w') ∧
        length (SDG_keys w') = length (SDG_keys Demo.start).
Proof.
  split; [reflexivity|].
  destruct (edit_syntax_replaces_and_frames
              "SDG1_1" "eradicate extreme poverty" "direct" Demo.start)
    as (w' & Hrun & Hlen & _).
  - replace (SeeSus.known_ids (SDG_keys Demo.start)) with ["SDG1_1"; "SDG2_1"]
      by (vm_compute; reflexivity).
    among.
  - among.
  - exists w'. by split.
Defined.

(** * Further properties *)

(** ** The matcher, rule by rule *)

Lemma list_set_nil xs : list_set xs = [] ↔ xs = [].
Proof.
  split.
  - destruct xs as [|x xs]; [done|]. intros Hnil.
    assert (Hx : x ∈ list_set (x :: xs))
      by (apply elem_of_list_set, elem_of_cons; by left).
    rewrite Hnil in Hx. by apply elem_of_nil in Hx.
  - intros ->. unfold list_set. simpl. apply elements_empty.
Qed.

Lemma goal_prefix_cons c r :
  goal_prefix (String c r) =
  if Ascii.eqb c "_" then EmptyString else String c (goal_prefix r).
Proof.
  unfold goal_prefix. simpl. destruct (Ascii.eqb c "_"); [done|].
  pose proof (split_nonempty "_"%char r) as Hne.
  by destruct (split "_"%char r).
Qed.

Section MatcherRules.

Variable re_search : string -> string -> option bool.

Lemma id_sus_str text w :
  id_sus re_search (PyStr text) w =
  match id_sus_loop re_search text (SDG_keys w) [] [] [] with
  | Ok (sdgs, targets, matches) =>
      (Ok (list_set sdgs, list_set targets, list_set matches), w)
  | Raise e => (Raise e, w)
  end.
Proof.
  unfold id_sus, bind, read_keys, lift, ret. simpl.
  by destruct (id_sus_loop re_search text (SDG_keys w) [] [] []) as [[[? ?] ?]|].
Qed.

Lemma elem_of_hits text keys item :
  item ∈ hits re_search text keys ↔
  item ∈ keys ∧ re_search (SDG_keywords item) text = Some true.
Proof. unfold hits. rewrite list_elem_of_filter. tauto. Qed.

Lemma elem_of_hits_image (f : rule → string) text keys y :
  y ∈ list_set (map f (hits re_search text keys)) ↔
  ∃ item, item ∈ keys ∧ re_search (SDG_keywords item) text = Some true ∧
          f item = y.
Proof.
  rewrite elem_of_list_set, elem_of_map_list. split.
  - intros (item & [Hin Hf]%elem_of_hits & Heq). by exists item.
  - intros (item & Hin & Hf & Heq). exists item.
    split; [by apply elem_of_hits | done].
Qed.

Lemma hits_nil text keys :
  compiles re_search text keys →
  hits re_search text keys = [] ↔
  Forall (fun item => re_search (SDG_keywords item) text = Some false) keys.
Proof.
  intros Hc. unfold compiles in Hc. split.
  - intros Hnil. apply Forall_forall. intros item Hin.
    rewrite Forall_forall in Hc. destruct (Hc item Hin) as [[] Hb]; [|done].
    assert (Hh : item ∈ hits re_search text keys) by (by apply elem_of_hits).
    rewrite Hnil in Hh. by apply elem_of_nil in Hh.
  - intros Hnone. destruct (hits re_search text keys) as [|h hs] eqn:Hh; [done|].
    assert (Hin : h ∈ hits re_search text keys)
      by (rewrite Hh; apply elem_of_cons; by left).
    apply elem_of_hits in Hin as [Hin Hfound].
    rewrite Forall_forall in Hnone. specialize (Hnone h Hin). congruence.
Qed.

Lemma nothing_found_compiles text keys :
  Forall (fun item => re_search (SDG_keywords item) text = Some false) keys →
  compiles re_search text keys.
Proof.
  unfold compiles. intros Hnone. eapply Forall_impl; [exact Hnone|].
  simpl. intros item ->. by eexists.
Qed.

Lemma id_sus_loop_refused text before bad after : ∀ sdgs targets matches,
  compiles re_search text before →
  re_search (SDG_keywords bad) text = None →
  id_sus_loop re_search text (before ++ bad :: after) sdgs targets matches =
  Raise (regex_error (SDG_keywords bad)).
Proof.
  induction before as [|item before IH]; intros sdgs targets matches Hc Hbad;
    simpl.
  - by rewrite Hbad.
  - apply Forall_cons in Hc as [[b Hb] Hc]. rewrite Hb.
    destruct b; by apply IH.
Qed.

Lemma id_sus_nothing text w :
  Forall (fun item => re_search (SDG_keywords item) text = Some false)
         (SDG_keys w) →
  id_sus re_search (PyStr text) w = (Ok ([], [], []), w).
Proof.
  intros Hnone. pose proof (nothing_found_compiles _ _ Hnone) as Hc.
  rewrite id_sus_str, (id_sus_loop_ok _ _ _ _ _ _ Hc).
  apply (hits_nil _ _ Hc) in Hnone. rewrite Hnone. simpl.
  by rewrite (proj2 (list_set_nil [])).
Qed.

End MatcherRules.

(** X1. Whenever [id_sus] returns on a string, the targets it returns are
    exactly the ids of the catalog rules whose pattern is found in the text,
    the match types exactly the match types of those rules and the goals
    exactly the [split("_")[0]] prefixes of their ids; none of the three
    lists holds a value twice. *)
Theorem id_sus_reports_found_rules
    (re_search : string → string → option bool) (text : string) (w w' : world)
    (sdgs targets matches : list string) :
  id_sus re_search (PyStr text) w = (Ok (sdgs, targets, matches), w') →
  (∀ t, t ∈ targets ↔
     ∃ item, item ∈ SDG_keys w ∧
             re_search (SDG_keywords item) text = Some true ∧
             SDG_id item = t) ∧
  (∀ m, m ∈ matches ↔
     ∃ item, item ∈ SDG_keys w ∧
             re_search (SDG_keywords item) text = Some true ∧
             match_type item = m) ∧
  (∀ g, g ∈ sdgs ↔
     ∃ item, item ∈ SDG_keys w ∧
             re_search (SDG_keywords item) text = Some true ∧
             goal_prefix (SDG_id item) = g) ∧
  NoDup sdgs ∧ NoDup targets ∧ NoDup matches.
Proof.
  intros (_ & _ & -> & -> & ->)%id_sus_returns.
  split; [|split; [|split]].
  - intros t. apply elem_of_hits_image.
  - intros m. apply elem_of_hits_image.
  - intros g.
    apply (elem_of_hits_image re_search (fun item => goal_prefix (SDG_id item))).
  - repeat split; apply NoDup_list_set.
Qed.

Lemma id_sus_reports_found_rules_witness :
  id_sus Demo.search (PyStr "zero hunger") Demo.start
    = (Ok (["SDG2"], ["SDG2_1"], ["indirect"]), Demo.start) ∧
  NoDup ["SDG2"] ∧ NoDup ["SDG2_1"] ∧ NoDup ["indirect"].
Proof.
  assert (Hrun :
    id_sus Demo.search (PyStr "zero hunger") Demo.start
      = (Ok (["SDG2"], ["SDG2_1"], ["indirect"]), Demo.start))
    by (vm_compute; reflexivity).
  split; [exact Hrun|].
  exact (proj2 (proj2 (proj2
    (id_sus_reports_found_rules Demo.search "zero hunger" Demo.start
       Demo.start ["SDG2"] ["SDG2_1"] ["indirect"] Hrun)))).
Defined.

(** X2. When no pattern of the catalog is found in the text (an empty
    catalog included), [id_sus] returns three empty lists; and in whatever
    [id_sus] returns the three lists are empty together, which happens only
    when no pattern is found. *)
Theorem id_sus_nothing_found
    (re_search : string → string → option bool) (text : string) (w : world) :
  (Forall (fun item => re_search (SDG_keywords item) text = Some false)
          (SDG_keys w) →
   id_sus re_search (PyStr text) w = (Ok ([], [], []), w)) ∧
  (∀ sdgs targets matches w',
     id_sus re_search (PyStr text) w = (Ok (sdgs, targets, matches), w') →
     (sdgs = [] ↔ targets = []) ∧
     (matches = [] ↔ targets = []) ∧
     (targets = [] ↔
        Forall (fun item => re_search (SDG_keywords item) text = Some false)
               (SDG_keys w))).
Proof.
  split; [apply id_sus_nothing|].
  intros sdgs targets matches w' (_ & Hc & -> & -> & ->)%id_sus_returns.
  rewrite !list_set_nil, <- (hits_nil _ _ _ Hc).
  destruct (hits re_search text (SDG_keys w)); simpl; split; done.
Qed.

(** X3. [id_sus] returns on a string exactly when the engine accepts every
    pattern of the catalog; otherwise it raises the engine's error for the
    first pattern it refuses, whatever was found before, and leaves the
    state as it was. *)
Theorem id_sus_fails_on_refused_pattern
    (re_search : string → string → option bool) (text : string) (w : world) :
  (compiles re_search text (SDG_keys w) ↔
     ∃ r, id_sus re_search (PyStr text) w = (Ok r, w)) ∧
  (∀ before bad after,
     SDG_keys w = before ++ bad :: after →
     compiles re_search text before →
     re_search (SDG_keywords bad) text = None →
     id_sus re_search (PyStr text) w =
       (Raise (regex_error (SDG_keywords bad)), w)).
Proof.
  split; [split|].
  - intros Hc. destruct (id_sus_total _ _ _ Hc) as (s & t & m & Hrun).
    by eexists.
  - intros ([[s t] m] & Hrun). by apply id_sus_returns in Hrun as (_ & Hc & _).
  - intros before bad after Hkeys Hc Hbad.
    rewrite id_sus_str, Hkeys. by rewrite id_sus_loop_refused.
Qed.

(** X4. [id_sus] never returns more goals than targets, nor more targets
    than the catalog has rules. *)
Theorem id_sus_sizes
    (re_search : string → string → option bool) (text : string) (w w' : world)
    (sdgs targets matches : list string) :
  id_sus re_search (PyStr text) w = (Ok (sdgs, targets, matches), w') →
  (length sdgs ≤ length targets)%nat ∧
  (length targets ≤ length (SDG_keys w))%nat ∧
  (length matches ≤ length (SDG_keys w))%nat.
Proof.
  intros (_ & _ & -> & -> & ->)%id_sus_returns.
  assert (Hbound : ∀ f : rule → string,
            (length (list_set (map f (hits re_search text (SDG_keys w))))
             ≤ length (SDG_keys w))%nat).
  { intros f. rewrite <- (length_map f (SDG_keys w)).
    apply submseteq_length, NoDup_submseteq; [apply NoDup_list_set|].
    intros y (item & Hin & _ & <-)%elem_of_hits_image.
    apply elem_of_map_list. by exists item. }
  split; [|split; apply Hbound].
  rewrite <- (length_map goal_prefix
                (list_set (map SDG_id (hits re_search text (SDG_keys w))))).
  apply submseteq_length, NoDup_submseteq; [apply NoDup_list_set|].
  intros g (item & Hin & Hf & <-)%(elem_of_hits_image re_search
                                     (fun item => goal_prefix (SDG_id item))).
  apply elem_of_map_list. exists (SDG_id item). split; [|done].
  apply elem_of_hits_image. by exists item.
Qed.

Lemma id_sus_sizes_witness :
  id_sus Demo.search (PyStr "end poverty (SDG 1) and hunger") Demo.start
    = (Ok (["SDG1"; "SDG2"], ["SDG1_1"; "SDG2_1"], ["indirect"; "direct"]),
       Demo.start) ∧
  (length ["SDG1"; "SDG2"] ≤ length ["SDG1_1"; "SDG2_1"])%nat ∧
  (length ["SDG1_1"; "SDG2_1"] ≤ length (SDG_keys Demo.start))%nat ∧
  (length ["indirect"; "direct"] ≤ length (SDG_keys Demo.start))%nat.
Proof.
  assert (Hrun :
    id_sus Demo.search (PyStr "end poverty (SDG 1) and hunger") Demo.start
      = (Ok (["SDG1"; "SDG2"], ["SDG1_1"; "SDG2_1"], ["indirect"; "direct"]),
         Demo.start))
    by (vm_compute; reflexivity).
  split; [exact Hrun|].
  exact (id_sus_sizes Demo.search "end poverty (SDG 1) and hunger" Demo.start
           Demo.start ["SDG1"; "SDG2"] ["SDG1_1"; "SDG2_1"]
           ["indirect"; "direct"] Hrun).
Defined.

(** X5. The goal recorded for a target id: an id without an underscore is
    its own goal, and for an id made of a part without underscore, an
    underscore and a remainder, the goal is the first part (["SDG1"] for
    ["SDG1_1"]), whatever the remainder holds. *)
Theorem goal_prefix_of_target_id (g t : string) :
  "_"%char ∉ chars g →
  goal_prefix g = g ∧ goal_prefix (g +:+ String "_" t) = g.
Proof.
  induction g as [|c g IH].
  - intros _. split; [reflexivity|].
    change (EmptyString +:+ String "_" t) with (String "_" t).
    by rewrite goal_prefix_cons.
  - change (chars (String c g)) with (c :: chars g).
    change (String c g +:+ String "_" t) with (String c (g +:+ String "_" t)).
    rewrite not_elem_of_cons. intros [Hc Hg].
    rewrite !goal_prefix_cons.
    destruct (Ascii.eqb_spec c "_"%char) as [->|_]; [done|].
    destruct (IH Hg) as [-> ->]. done.
Qed.

Lemma goal_prefix_of_target_id_witness :
  goal_prefix "SDG1" = "SDG1" ∧ goal_prefix ("SDG1" +:+ String "_" "1_a") = "SDG1".
Proof.
  apply (goal_prefix_of_target_id "SDG1" "1_a").
  intros Hin. apply list_elem_of_In in Hin. simpl in Hin.
  repeat (destruct Hin as [Hin|Hin]; [discriminate Hin|]). exact Hin.
Defined.

(** ** The catalog, edit after edit *)

Section CatalogEdits.
Import SeeSus.

Lemma known_ids_spec sdg_id keys :
  sdg_id ∈ known_ids keys ↔ ∃ item, item ∈ keys ∧ SDG_id item = sdg_id.
Proof. unfold known_ids. by rewrite elem_of_list_set, elem_of_map_list. Qed.

Lemma edit_item_hit sdg_id new_syntax mt item :
  SDG_id item = sdg_id → match_type item = mt →
  edit_item sdg_id new_syntax mt item = update_keywords item new_syntax.
Proof. intros Hid Hmt. unfold edit_item. by rewrite decide_True. Qed.

Lemma edit_item_miss sdg_id new_syntax mt item :
  ¬ (SDG_id item = sdg_id ∧ match_type item = mt) →
  edit_item sdg_id new_syntax mt item = item.
Proof. intros Hmiss. unfold edit_item. by rewrite decide_False. Qed.

Lemma edit_item_twice sdg_id s1 s2 mt item :
  edit_item sdg_id s2 mt (edit_item sdg_id s1 mt item) =
  edit_item sdg_id s2 mt item.
Proof.
  destruct (decide (SDG_id item = sdg_id ∧ match_type item = mt))
    as [[Hid Hmt]|Hmiss].
  - rewrite (edit_item_hit sdg_id s1) by done.
    by rewrite !edit_item_hit.
  - by rewrite (edit_item_miss sdg_id s1).
Qed.

Lemma edit_item_comm id1 s1 mt1 id2 s2 mt2 item :
  (id1, mt1) ≠ (id2, mt2) →
  edit_item id2 s2 mt2 (edit_item id1 s1 mt1 item) =
  edit_item id1 s1 mt1 (edit_item id2 s2 mt2 item).
Proof.
  intros Hne.
  destruct (decide (SDG_id item = id1 ∧ match_type item = mt1))
    as [[Hid1 Hmt1]|Hmiss1];
  destruct (decide (SDG_id item = id2 ∧ match_type item = mt2))
    as [[Hid2 Hmt2]|Hmiss2].
  - congruence.
  - rewrite (edit_item_miss id2 s2 mt2 item) by done.
    rewrite (edit_item_hit id1 s1 mt1 item) by done.
    by rewrite edit_item_miss.
  - rewrite (edit_item_miss id1 s1 mt1 item) by done.
    rewrite (edit_item_hit id2 s2 mt2 item) by done.
    by rewrite edit_item_miss.
  - rewrite (edit_item_miss id1 s1 mt1 item) by done.
    rewrite (edit_item_miss id2 s2 mt2 item) by done.
    by rewrite edit_item_miss.
Qed.

Lemma edit_item_back sdg_id old new_syntax mt item :
  (SDG_id item = sdg_id → match_type item = mt → SDG_keywords item = old) →
  edit_item sdg_id old mt (edit_item sdg_id new_syntax mt item) = item.
Proof.
  intros Hold. rewrite edit_item_twice.
  destruct (decide (SDG_id item = sdg_id ∧ match_type item = mt))
    as [[Hid Hmt]|Hmiss].
  - rewrite edit_item_hit by done. specialize (Hold Hid Hmt).
    destruct item. simpl in *. by subst.
  - by rewrite edit_item_miss.
Qed.

Lemma edit_loop_unchanged sdg_id new_syntax mt keys :
  (∀ item, item ∈ keys → ¬ (SDG_id item = sdg_id ∧ match_type item = mt)) →
  edit_loop sdg_id new_syntax mt keys = keys.
Proof.
  induction keys as [|item keys IH]; simpl; [done|]. intros Hmiss.
  rewrite decide_False by (apply Hmiss, elem_of_cons; by left).
  f_equal. apply IH. intros item' Hin. apply Hmiss, elem_of_cons. by right.
Qed.

Lemma edit_syntax_returns sdg_id new_syntax mt w :
  sdg_id ∈ known_ids (SDG_keys w) →
  mt ∈ ["direct"; "indirect"] →
  ∃ w', edit_syntax sdg_id new_syntax mt w = (Ok tt, w') ∧
        SDG_keys w' = edit_item sdg_id new_syntax mt <$> SDG_keys w ∧
        known_ids (SDG_keys w') = known_ids (SDG_keys w).
Proof.
  intros Hid Hmt. eexists. split; [by apply edit_syntax_ok|]. simpl.
  split; [apply edit_loop_fmap | apply known_ids_edit_loop].
Qed.

End CatalogEdits.

(** X6. When the id is known and the match type is valid but no rule of
    the catalog has that id together with that match type, [edit_syntax]
    changes no rule and still prints that the syntax has been updated. *)
Theorem edit_syntax_without_matching_rule
    (sdg_id new_syntax mt : string) (w : world) :
  sdg_id ∈ SeeSus.known_ids (SDG_keys w) →
  mt ∈ ["direct"; "indirect"] →
  (∀ item, item ∈ SDG_keys w →
           ¬ (SDG_id item = sdg_id ∧ match_type item = mt)) →
  SeeSus.edit_syntax sdg_id new_syntax mt w =
    (Ok tt,
     {| SDG_keys := SDG_keys w;
        stdout := stdout w ++
          [out_line ("The " +:+ mt +:+ " match syntax of " +:+ sdg_id
                       +:+ " has been updated.")] |}).
Proof.
  intros Hid Hmt Hmiss. rewrite edit_syntax_ok by done.
  by rewrite edit_loop_unchanged.
Qed.

Lemma edit_syntax_without_matching_rule_witness :
  SeeSus.edit_syntax "SDG2_1" "starving" "direct" Demo.start =
    (Ok tt,
     {| SDG_keys := Demo.keys;
        stdout := [out_line "The direct match syntax of SDG2_1 has been updated."] |}).
Proof.
  apply (edit_syntax_without_matching_rule "SDG2_1" "starving" "direct"
           Demo.start).
  - apply known_ids_spec. exists (mk_rule "SDG2_1" "hunger" "indirect").
    split; [among | reflexivity].
  - among.
  - intros item Hin [Hid Hmt]. apply list_elem_of_In in Hin. simpl in Hin.
    destruct Hin as [<-|[<-|[<-|[]]]]; discriminate.
Defined.

(** X7. Of two successful edits of the same id and match type the last one
    wins: the catalog after both is the catalog after the second alone.  In
    particular an edit made twice leaves the catalog of the edit made once. *)
Theorem edit_syntax_last_write_wins
    (sdg_id s1 s2 mt : string) (w : world) :
  sdg_id ∈ SeeSus.known_ids (SDG_keys w) →
  mt ∈ ["direct"; "indirect"] →
  ∃ w1 w2 w2',
    SeeSus.edit_syntax sdg_id s1 mt w = (Ok tt, w1) ∧
    SeeSus.edit_syntax sdg_id s2 mt w1 = (Ok tt, w2) ∧
    SeeSus.edit_syntax sdg_id s2 mt w = (Ok tt, w2') ∧
    SDG_keys w2 = SDG_keys w2'.
Proof.
  intros Hid Hmt.
  destruct (edit_syntax_returns sdg_id s1 mt w Hid Hmt)
    as (w1 & Hrun1 & Hkeys1 & Hids1).
  destruct (edit_syntax_returns sdg_id s2 mt w1) as (w2 & Hrun2 & Hkeys2 & _);
    [by rewrite Hids1 | done |].
  destruct (edit_syntax_returns sdg_id s2 mt w Hid Hmt)
    as (w2' & Hrun2' & Hkeys2' & _).
  exists w1, w2, w2'. repeat split; try done.
  rewrite Hkeys2, Hkeys1, Hkeys2', <- list_fmap_compose.
  apply list_fmap_ext. intros i item _. apply edit_item_twice.
Qed.

Lemma edit_syntax_last_write_wins_witness :
  ∃ w1 w2 w2',
    SeeSus.edit_syntax "SDG1_1" "the poor" "indirect" Demo.start = (Ok tt, w1) ∧
    SeeSus.edit_syntax "SDG1_1" "poorest" "indirect" w1 = (Ok tt, w2) ∧
    SeeSus.edit_syntax "SDG1_1" "poorest" "indirect" Demo.start = (Ok tt, w2') ∧
    SDG_keys w2 = SDG_keys w2'.
Proof.
  apply (edit_syntax_last_write_wins "SDG1_1" "the poor" "poorest" "indirect"
           Demo.start).
  - apply known_ids_spec. exists (mk_rule "SDG1_1" "poverty" "indirect").
    split; [among | reflexivity].
  - among.
Defined.

(** X8. Successful edits of two different (id, match type) pairs commute:
    made in either order they leave the same catalog. *)
Theorem edit_syntax_edits_commute
    (id1 s1 mt1 id2 s2 mt2 : string) (w : world) :
  id1 ∈ SeeSus.known_ids (SDG_keys w) →
  id2 ∈ SeeSus.known_ids (SDG_keys w) →
  mt1 ∈ ["direct"; "indirect"] →
  mt2 ∈ ["direct"; "indirect"] →
  (id1, mt1) ≠ (id2, mt2) →
  ∃ wa wab wb wba,
    SeeSus.edit_syntax id1 s1 mt1 w = (Ok tt, wa) ∧
    SeeSus.edit_syntax id2 s2 mt2 wa = (Ok tt, wab) ∧
    SeeSus.edit_syntax id2 s2 mt2 w = (Ok tt, wb) ∧
    SeeSus.edit_syntax id1 s1 mt1 wb = (Ok tt, wba) ∧
    SDG_keys wab = SDG_keys wba.
Proof.
  intros Hid1 Hid2 Hmt1 Hmt2 Hne.
  destruct (edit_syntax_returns id1 s1 mt1 w Hid1 Hmt1)
    as (wa & Hruna & Hkeysa & Hidsa).
  destruct (edit_syntax_returns id2 s2 mt2 wa) as (wab & Hrunab & Hkeysab & _);
    [by rewrite Hidsa | done |].
  destruct (edit_syntax_returns id2 s2 mt2 w Hid2 Hmt2)
    as (wb & Hrunb & Hkeysb & Hidsb).
  destruct (edit_syntax_returns id1 s1 mt1 wb) as (wba & Hrunba & Hkeysba & _);
    [by rewrite Hidsb | done |].
  exists wa, wab, wb, wba. repeat split; try done.
  rewrite Hkeysab, Hkeysa, Hkeysba, Hkeysb, <- !list_fmap_compose.
  apply list_fmap_ext. intros i item _. by apply edit_item_comm.
Qed.

Lemma edit_syntax_edits_commute_witness :
  ∃ wa wab wb wba,
    SeeSus.edit_syntax "SDG1_1" "goal 1" "direct" Demo.start = (Ok tt, wa) ∧
    SeeSus.edit_syntax "SDG1_1" "the poor" "indirect" wa = (Ok tt, wab) ∧
    SeeSus.edit_syntax "SDG1_1" "the poor" "indirect" Demo.start = (Ok tt, wb) ∧
    SeeSus.edit_syntax "SDG1_1" "goal 1" "direct" wb = (Ok tt, wba) ∧
    SDG_keys wab = SDG_keys wba.
Proof.
  apply (edit_syntax_edits_commute "SDG1_1" "goal 1" "direct"
           "SDG1_1" "the poor" "indirect" Demo.start).
  - apply known_ids_spec. exists (mk_rule "SDG1_1" "poverty" "indirect").
    split; [among | reflexivity].
  - apply known_ids_spec. exists (mk_rule "SDG1_1" "poverty" "indirect").
    split; [among | reflexivity].
  - among.
  - among.
  - discriminate.
Defined.

(** X9. An edit can be taken back: when every rule with the given id and
    match type carries the pattern [old] (as when there is one such rule),
    editing to a new pattern and then back to [old] restores the catalog. *)
Theorem edit_syntax_can_be_undone
    (sdg_id old new_syntax mt : string) (w : world) :
  sdg_id ∈ SeeSus.known_ids (SDG_keys w) →
  mt ∈ ["direct"; "indirect"] →
  (∀ item, item ∈ SDG_keys w → SDG_id item = sdg_id → match_type item = mt →
           SDG_keywords item = old) →
  ∃ w1 w2,
    SeeSus.edit_syntax sdg_id new_syntax mt w = (Ok tt, w1) ∧
    SeeSus.edit_syntax sdg_id old mt w1 = (Ok tt, w2) ∧
    SDG_keys w2 = SDG_keys w.
Proof.
  intros Hid Hmt Hold.
  destruct (edit_syntax_returns sdg_id new_syntax mt w Hid Hmt)
    as (w1 & Hrun1 & Hkeys1 & Hids1).
  destruct (edit_syntax_returns sdg_id old mt w1) as (w2 & Hrun2 & Hkeys2 & _);
    [by rewrite Hids1 | done |].
  exists w1, w2. repeat split; try done.
  rewrite Hkeys2, Hkeys1, <- list_fmap_compose.
  rewrite <- (list_fmap_id (SDG_keys w)) at 2.
  apply list_fmap_ext. intros i item Hi. simpl.
  apply edit_item_back. by apply Hold, (list_elem_of_lookup_2 _ i).
Qed.

Lemma edit_syntax_can_be_undone_witness :
  ∃ w1 w2,
    SeeSus.edit_syntax "SDG2_1" "starving" "indirect" Demo.start = (Ok tt, w1) ∧
    SeeSus.edit_syntax "SDG2_1" "hunger" "indirect" w1 = (Ok tt, w2) ∧
    SDG_keys w2 = SDG_keys Demo.start.
Proof.
  apply (edit_syntax_can_be_undone "SDG2_1" "hunger" "starving" "indirect"
           Demo.start).
  - apply known_ids_spec. exists (mk_rule "SDG2_1" "hunger" "indirect").
    split; [among | reflexivity].
  - among.
  - intros item Hin Hid Hmt. apply list_elem_of_In in Hin. simpl in Hin.
    destruct Hin as [<-|[<-|[<-|[]]]]; (reflexivity || discriminate).
Defined.

(** X10. Called without a match type, [edit_syntax] edits the indirect
    rules: with a known id it returns, every rule whose match type is not
    ["indirect"] is left as it was, and every rule of the id with match type
    ["indirect"] carries the new pattern. *)
Theorem edit_syntax_default_edits_indirect_rules
    (sdg_id new_syntax : string) (w : world) :
  sdg_id ∈ SeeSus.known_ids (SDG_keys w) →
  ∃ w', SeeSus.edit_syntax_default sdg_id new_syntax w = (Ok tt, w') ∧
    ∀ i item, SDG_keys w !! i = Some item →
      (match_type item ≠ "indirect" → SDG_keys w' !! i = Some item) ∧
      (SDG_id item = sdg_id → match_type item = "indirect" →
       SDG_keys w' !! i = Some (mk_rule sdg_id new_syntax "indirect")).
Proof.
  intros Hid. unfold SeeSus.edit_syntax_default.
  destruct (edit_syntax_returns sdg_id new_syntax "indirect" w)
    as (w' & Hrun & Hkeys & _); [done | among |].
  exists w'. split; [done|]. intros i item Hi.
  rewrite Hkeys, list_lookup_fmap, Hi. simpl. split.
  - intros Hmt. rewrite edit_item_miss; [done|]. by intros [_ ?].
  - intros Hsdg Hmt. rewrite edit_item_hit by done.
    destruct item. simpl in *. by subst.
Qed.

Lemma edit_syntax_default_edits_indirect_rules_witness :
  ∃ w', SeeSus.edit_syntax_default "SDG1_1" "the poor" Demo.start = (Ok tt, w') ∧
    ∀ i item, SDG_keys Demo.start !! i = Some item →
      (match_type item ≠ "indirect" → SDG_keys w' !! i = Some item) ∧
      (SDG_id item = "SDG1_1" → match_type item = "indirect" →
       SDG_keys w' !! i = Some (mk_rule "SDG1_1" "the poor" "indirect")).
Proof.
  apply (edit_syntax_default_edits_indirect_rules "SDG1_1" "the poor"
           Demo.start).
  apply known_ids_spec. exists (mk_rule "SDG1_1" "poverty" "indirect").
  split; [among | reflexivity].
Defined.

(** X11. [show_syntax] returns exactly when some rule of the catalog has
    the id; it then leaves the catalog as it was and prints one list, never
    an empty one: the rules with that id, all of them, in catalog order. *)
Theorem show_syntax_prints_the_rules_of_the_id (sdg_id : string) (w : world) :
  ((∃ item, item ∈ SDG_keys w ∧ SDG_id item = sdg_id) ↔
     ∃ w', SeeSus.show_syntax sdg_id w = (Ok tt, w')) ∧
  (∀ w', SeeSus.show_syntax sdg_id w = (Ok tt, w') →
     ∃ syntax,
       w' = {| SDG_keys := SDG_keys w;
               stdout := stdout w ++ [out_rules syntax] |} ∧
       syntax ≠ [] ∧
       syntax `sublist_of` SDG_keys w ∧
       (∀ d, d ∈ syntax ↔ d ∈ SDG_keys w ∧ SDG_id d = sdg_id)).
Proof.
  split; [split|].
  - intros Hid%known_ids_spec. eexists. by apply show_syntax_known.
  - intros [w' Hrun]. apply known_ids_spec.
    destruct (decide (sdg_id ∈ SeeSus.known_ids (SDG_keys w))) as [Hid|Hid];
      [done|].
    by rewrite show_syntax_unknown in Hrun.
  - intros w' Hrun.
    destruct (decide (sdg_id ∈ SeeSus.known_ids (SDG_keys w))) as [Hid|Hid];
      [|by rewrite show_syntax_unknown in Hrun].
    rewrite show_syntax_known in Hrun by done. injection Hrun as <-.
    eexists. split; [reflexivity|].
    assert (Hmem : ∀ d, d ∈ filter (fun d => SDG_id d = sdg_id) (SDG_keys w)
                     ↔ d ∈ SDG_keys w ∧ SDG_id d = sdg_id)
      by (intros d; rewrite list_elem_of_filter; tauto).
    split; [|split; [apply sublist_filter | exact Hmem]].
    apply known_ids_spec in Hid as (item & Hin & Heq).
    intros Hnil. assert (Hd : item ∈ filter (fun d => SDG_id d = sdg_id) (SDG_keys w))
      by (by apply Hmem).
    rewrite Hnil in Hd. by apply elem_of_nil in Hd.
Qed.

Section EditThenSearch.
Import SeeSus.

Variable re_search : string -> string -> option bool.

Lemma edited_compiles sdg_id new_syntax mt text keys :
  is_Some (re_search new_syntax text) →
  compiles re_search text keys →
  compiles re_search text (edit_item sdg_id new_syntax mt <$> keys).
Proof.
  intros Hnew Hc. unfold compiles in *. apply Forall_fmap.
  eapply Forall_impl; [exact Hc|]. simpl. intros item Hitem.
  unfold edit_item. by case_decide.
Qed.

Lemma id_sus_loop_edited_refused sdg_id new_syntax mt text keys :
  ∀ sdgs targets matches,
  compiles re_search text keys →
  (∃ item, item ∈ keys ∧ SDG_id item = sdg_id ∧ match_type item = mt) →
  re_search new_syntax text = None →
  id_sus_loop re_search text (edit_item sdg_id new_syntax mt <$> keys)
    sdgs targets matches = Raise (regex_error new_syntax).
Proof.
  induction keys as [|item keys IH]; intros sdgs targets matches Hc Hex Hnew.
  - by destruct Hex as (item & ?%elem_of_nil & _).
  - apply Forall_cons in Hc as [[b Hb] Hc]. rewrite fmap_cons.
    destruct (decide (SDG_id item = sdg_id ∧ match_type item = mt))
      as [[Hid Hmt]|Hmiss].
    + rewrite edit_item_hit by done. simpl. by rewrite Hnew.
    + rewrite edit_item_miss by done. simpl. rewrite Hb.
      assert (Hex' : ∃ item', item' ∈ keys ∧ SDG_id item' = sdg_id ∧
                              match_type item' = mt).
      { destruct Hex as (item' & [->|Hin]%elem_of_cons & Hid & Hmt);
          [by destruct Hmiss | by exists item']. }
      destruct b; by apply IH.
Qed.

Lemma id_sus_loop_raises text keys :
  ∀ sdgs targets matches,
  ¬ compiles re_search text keys →
  ∃ p, id_sus_loop re_search text keys sdgs targets matches =
       Raise (regex_error p).
Proof.
  induction keys as [|item keys IH]; intros sdgs targets matches Hnc.
  - destruct Hnc. apply Forall_nil_2.
  - simpl. destruct (re_search (SDG_keywords item) text) as [b|] eqn:Hb;
      [|by eexists].
    assert (Hnc' : ¬ compiles re_search text keys).
    { intros Hc. apply Hnc. apply Forall_cons. split; [by eexists | done]. }
    destruct b; by apply IH.
Qed.

End EditThenSearch.

(** X12. An edit shows in the matcher: after [edit_syntax] has given the
    rules of an id and match type present in the catalog a new pattern,
    [id_sus] on a text in which the new pattern is found reports that id,
    that match type and the id's goal; and it returns whenever the engine
    accepted every pattern of the catalog before the edit. *)
Theorem edit_syntax_then_id_sus
    (re_search : string → string → option bool)
    (sdg_id old new_syntax mt text : string) (w : world) :
  mk_rule sdg_id old mt ∈ SDG_keys w →
  mt ∈ ["direct"; "indirect"] →
  re_search new_syntax text = Some true →
  ∃ w1, SeeSus.edit_syntax sdg_id new_syntax mt w = (Ok tt, w1) ∧
    (compiles re_search text (SDG_keys w) →
     ∃ sdgs targets matches,
       id_sus re_search (PyStr text) w1 = (Ok (sdgs, targets, matches), w1)) ∧
    (∀ sdgs targets matches w2,
       id_sus re_search (PyStr text) w1 = (Ok (sdgs, targets, matches), w2) →
       sdg_id ∈ targets ∧ mt ∈ matches ∧ goal_prefix sdg_id ∈ sdgs).
Proof.
  intros Hrule Hmt Hnew.
  destruct (edit_syntax_returns sdg_id new_syntax mt w) as (w1 & Hrun & Hkeys & _);
    [apply known_ids_spec; by exists (mk_rule sdg_id old mt) | done |].
  exists w1. split; [done|]. split.
  - intros Hc. apply id_sus_total. rewrite Hkeys.
    apply edited_compiles; [by eexists | done].
  - intros sdgs targets matches w2 (_ & _ & -> & -> & ->)%id_sus_returns.
    assert (Hnewrule : mk_rule sdg_id new_syntax mt ∈ SDG_keys w1).
    { rewrite Hkeys. apply list_elem_of_fmap.
      exists (mk_rule sdg_id old mt). split; [|done].
      by rewrite edit_item_hit. }
    split; [|split].
    + apply elem_of_hits_image. by exists (mk_rule sdg_id new_syntax mt).
    + apply elem_of_hits_image. by exists (mk_rule sdg_id new_syntax mt).
    + apply (elem_of_hits_image re_search
               (fun item => goal_prefix (SDG_id item))).
      by exists (mk_rule sdg_id new_syntax mt).
Qed.

Lemma edit_syntax_then_id_sus_witness :
  ∃ w1,
    SeeSus.edit_syntax "SDG1_1" "eradicate extreme poverty" "direct" Demo.start
      = (Ok tt, w1) ∧
    (compiles Demo.search "We aim to eradicate extreme poverty by 2030."
       (SDG_keys Demo.start) →
     ∃ sdgs targets matches,
       id_sus Demo.search (PyStr "We aim to eradicate extreme poverty by 2030.") w1
         = (Ok (sdgs, targets, matches), w1)) ∧
    (∀ sdgs targets matches w2,
       id_sus Demo.search (PyStr "We aim to eradicate extreme poverty by 2030.") w1
         = (Ok (sdgs, targets, matches), w2) →
       "SDG1_1" ∈ targets ∧ "direct" ∈ matches ∧ goal_prefix "SDG1_1" ∈ sdgs).
Proof.
  apply (edit_syntax_then_id_sus Demo.search "SDG1_1" "SDG 1"
           "eradicate extreme poverty" "direct"
           "We aim to eradicate extreme poverty by 2030." Demo.start).
  - among.
  - among.
  - vm_compute; reflexivity.
Defined.

(** X13. [edit_syntax] does not try the new pattern: it accepts one the
    engine refuses, and from then on [id_sus] raises the engine's error on
    every text on which the pattern is refused (for that very pattern when
    the engine accepted the catalog before the edit), returning nothing. *)
Theorem edit_syntax_accepts_refused_pattern
    (re_search : string → string → option bool)
    (sdg_id old new_syntax mt text : string) (w : world) :
  mk_rule sdg_id old mt ∈ SDG_keys w →
  mt ∈ ["direct"; "indirect"] →
  re_search new_syntax text = None →
  ∃ w1, SeeSus.edit_syntax sdg_id new_syntax mt w = (Ok tt, w1) ∧
    (∃ p, id_sus re_search (PyStr text) w1 = (Raise (regex_error p), w1)) ∧
    (compiles re_search text (SDG_keys w) →
     id_sus re_search (PyStr text) w1 = (Raise (regex_error new_syntax), w1)).
Proof.
  intros Hrule Hmt Hnew.
  destruct (edit_syntax_returns sdg_id new_syntax mt w) as (w1 & Hrun & Hkeys & _);
    [apply known_ids_spec; by exists (mk_rule sdg_id old mt) | done |].
  exists w1. split; [done|]. split.
  - rewrite id_sus_str.
    destruct (id_sus_loop_raises re_search text (SDG_keys w1) [] [] [])
      as [p ->]; [|by exists p].
    rewrite Hkeys. unfold compiles. rewrite Forall_fmap, Forall_forall.
    intros Hall. specialize (Hall _ Hrule). simpl in Hall.
    rewrite edit_item_hit in Hall by done. simpl in Hall.
    rewrite Hnew in Hall. by destruct Hall.
  - intros Hc. rewrite id_sus_str, Hkeys.
    rewrite (id_sus_loop_edited_refused re_search sdg_id new_syntax mt);
      [done | done | by exists (mk_rule sdg_id old mt) | done].
Qed.

Lemma edit_syntax_accepts_refused_pattern_witness :
  ∃ w1, SeeSus.edit_syntax "SDG2_1" "(" "indirect" Demo.start = (Ok tt, w1) ∧
    (∃ p, id_sus Demo.search (PyStr "zero hunger") w1
            = (Raise (regex_error p), w1)) ∧
    (compiles Demo.search "zero hunger" (SDG_keys Demo.start) →
     id_sus Demo.search (PyStr "zero hunger") w1
       = (Raise (regex_error "("), w1)).
Proof.
  apply (edit_syntax_accepts_refused_pattern Demo.search "SDG2_1" "hunger" "("
           "indirect" "zero hunger" Demo.start).
  - among.
  - among.
  - reflexivity.
Defined.

(** ** The aggregator, beyond one list *)

Lemma occurrences_Permutation x l l' :
  l ≡ₚ l' → occurrences x l = occurrences x l'.
Proof. intros Hp. unfold occurrences. by rewrite Hp. Qed.

Lemma weighted_nil flag see_keys : weighted flag see_keys [] = 0.
Proof.
  induction see_keys as [|item see_keys IH]; simpl; [done|].
  rewrite IH. unfold occurrences. simpl. lia.
Qed.

Lemma weighted_app flag see_keys t1 t2 :
  weighted flag see_keys (t1 ++ t2) =
  weighted flag see_keys t1 + weighted flag see_keys t2.
Proof.
  induction see_keys as [|item see_keys IH]; simpl; [done|].
  rewrite IH, occurrences_app. lia.
Qed.

Lemma weighted_targets_Permutation flag see_keys target target' :
  target ≡ₚ target' →
  weighted flag see_keys target = weighted flag see_keys target'.
Proof.
  intros Hp. induction see_keys as [|item see_keys IH]; simpl; [done|].
  by rewrite IH, (occurrences_Permutation _ _ _ Hp).
Qed.

Lemma weighted_rows_Permutation flag see_keys see_keys' target :
  see_keys ≡ₚ see_keys' →
  weighted flag see_keys target = weighted flag see_keys' target.
Proof. induction 1; simpl; lia. Qed.

Lemma weighted_skip flag see_keys t1 u t2 :
  u ∉ map see_id see_keys →
  weighted flag see_keys (t1 ++ u :: t2) = weighted flag see_keys (t1 ++ t2).
Proof.
  induction see_keys as [|item see_keys IH]; simpl; [done|].
  rewrite not_elem_of_cons. intros [Hne Hnin]. rewrite IH by done.
  rewrite !occurrences_app, occurrences_cons.
  by rewrite decide_False.
Qed.

Lemma weighted_unknown flag see_keys target :
  (∀ t, t ∈ target → t ∉ map see_id see_keys) →
  weighted flag see_keys target = 0.
Proof.
  intros Hunknown. induction see_keys as [|item see_keys IH]; simpl; [done|].
  assert (Hz : occurrences (see_id item) target = 0%nat).
  { apply occurrences_zero. intros Hin. apply (Hunknown _ Hin).
    simpl. apply elem_of_cons. by left. }
  rewrite Hz, IH; [lia|].
  intros t Ht Hin. apply (Hunknown _ Ht). simpl. apply elem_of_cons. by right.
Qed.

Lemma positive_add a b :
  (0 ≤ a)%Z → (0 ≤ b)%Z → positive (a + b) = positive a || positive b.
Proof. intros Ha Hb. unfold positive. repeat case_decide; simpl; lia. Qed.

Lemma positive_iff a b : (a > 0 ↔ b > 0) → positive a = positive b.
Proof. intros Hiff. unfold positive. repeat case_decide; tauto. Qed.

Lemma nonneg_soc see_keys :
  Forall (fun item => (0 ≤ soc item)%Z ∧ (0 ≤ env item)%Z ∧ (0 ≤ econ item)%Z)
         see_keys →
  Forall (fun item => (0 ≤ soc item)%Z) see_keys.
Proof. intros H. eapply Forall_impl; [exact H|]. by intros ? (? & ? & ?). Qed.

Lemma nonneg_env see_keys :
  Forall (fun item => (0 ≤ soc item)%Z ∧ (0 ≤ env item)%Z ∧ (0 ≤ econ item)%Z)
         see_keys →
  Forall (fun item => (0 ≤ env item)%Z) see_keys.
Proof. intros H. eapply Forall_impl; [exact H|]. by intros ? (? & ? & ?). Qed.

Lemma nonneg_econ see_keys :
  Forall (fun item => (0 ≤ soc item)%Z ∧ (0 ≤ env item)%Z ∧ (0 ≤ econ item)%Z)
         see_keys →
  Forall (fun item => (0 ≤ econ item)%Z) see_keys.
Proof. intros H. eapply Forall_impl; [exact H|]. by intros ? (? & ? & ?). Qed.

Lemma cat_sus_weighted see_keys target :
  cat_sus see_keys target =
  mk_see (positive (weighted soc see_keys target))
         (positive (weighted env see_keys target))
         (positive (weighted econ see_keys target)).
Proof. unfold cat_sus. by rewrite cat_sus_counts_spec. Qed.

Lemma weighted_same_members flag see_keys t1 t2 :
  Forall (fun item => (0 ≤ flag item)%Z) see_keys →
  (∀ t, t ∈ t1 ↔ t ∈ t2) →
  positive (weighted flag see_keys t1) = positive (weighted flag see_keys t2).
Proof.
  intros Hflags Hsame. apply positive_iff.
  rewrite !weighted_positive by done.
  split; intros (t & item & Ht & Hrest); exists t, item;
    (split; [by apply Hsame | done]).
Qed.

(** X14. The result of [cat_sus] does not depend on the order of the
    target list nor on the order of the rows of [see_keys], whatever the
    flags are. *)
Theorem cat_sus_order_irrelevant
    (see_keys see_keys' : list see_row) (target target' : list string) :
  see_keys ≡ₚ see_keys' → target ≡ₚ target' →
  cat_sus see_keys target = cat_sus see_keys' target'.
Proof.
  intros Hk Ht. rewrite !cat_sus_weighted.
  by rewrite !(weighted_rows_Permutation _ _ _ _ Hk),
             !(weighted_targets_Permutation _ _ _ _ Ht).
Qed.

Lemma cat_sus_order_irrelevant_witness :
  cat_sus Demo.see_keys ["SDG1_1"; "SDG2_1"] =
  cat_sus (reverse Demo.see_keys) ["SDG2_1"; "SDG1_1"].
Proof.
  apply (cat_sus_order_irrelevant Demo.see_keys (reverse Demo.see_keys)
           ["SDG1_1"; "SDG2_1"] ["SDG2_1"; "SDG1_1"]).
  - apply Permutation_swap.
  - apply Permutation_swap.
Defined.

(** X15. With non-negative flags, [cat_sus] of two target lists put
    together is, dimension by dimension, the disjunction of [cat_sus] of
    each: a dimension that is [True] for some targets stays [True] when
    more targets are added. *)
Theorem cat_sus_of_concatenation
    (see_keys : list see_row) (t1 t2 : list string) :
  Forall (fun item => (0 ≤ soc item)%Z ∧ (0 ≤ env item)%Z ∧ (0 ≤ econ item)%Z)
         see_keys →
  social_sustainability (cat_sus see_keys (t1 ++ t2)) =
    social_sustainability (cat_sus see_keys t1)
    || social_sustainability (cat_sus see_keys t2) ∧
  environmental_sustainability (cat_sus see_keys (t1 ++ t2)) =
    environmental_sustainability (cat_sus see_keys t1)
    || environmental_sustainability (cat_sus see_keys t2) ∧
  economic_sustainability (cat_sus see_keys (t1 ++ t2)) =
    economic_sustainability (cat_sus see_keys t1)
    || economic_sustainability (cat_sus see_keys t2).
Proof.
  intros Hflags. rewrite !cat_sus_weighted. simpl. rewrite !weighted_app.
  pose proof (nonneg_soc _ Hflags) as Hsoc.
  pose proof (nonneg_env _ Hflags) as Henv.
  pose proof (nonneg_econ _ Hflags) as Hecon.
  repeat split; apply positive_add; by apply weighted_nonneg.
Qed.

Lemma cat_sus_of_concatenation_witness :
  social_sustainability (cat_sus Demo.see_keys (["SDG2_1"] ++ ["SDG1_1"])) =
    social_sustainability (cat_sus Demo.see_keys ["SDG2_1"])
    || social_sustainability (cat_sus Demo.see_keys ["SDG1_1"]) ∧
  environmental_sustainability (cat_sus Demo.see_keys (["SDG2_1"] ++ ["SDG1_1"])) =
    environmental_sustainability (cat_sus Demo.see_keys ["SDG2_1"])
    || environmental_sustainability (cat_sus Demo.see_keys ["SDG1_1"]) ∧
  economic_sustainability (cat_sus Demo.see_keys (["SDG2_1"] ++ ["SDG1_1"])) =
    economic_sustainability (cat_sus Demo.see_keys ["SDG2_1"])
    || economic_sustainability (cat_sus Demo.see_keys ["SDG1_1"]).
Proof.
  apply (cat_sus_of_concatenation Demo.see_keys ["SDG2_1"] ["SDG1_1"]).
  repeat constructor; simpl; lia.
Defined.

(** X16. With non-negative flags, [cat_sus] depends on the target list only
    through the ids that occur in it: two lists with the same members give
    the same result, so repeating a target changes nothing although the
    counters add up. *)
Theorem cat_sus_ignores_repeats
    (see_keys : list see_row) (t1 t2 : list string) :
  Forall (fun item => (0 ≤ soc item)%Z ∧ (0 ≤ env item)%Z ∧ (0 ≤ econ item)%Z)
         see_keys →
  (∀ t, t ∈ t1 ↔ t ∈ t2) →
  cat_sus see_keys t1 = cat_sus see_keys t2.
Proof.
  intros Hflags Hsame. rewrite !cat_sus_weighted.
  rewrite (weighted_same_members soc see_keys t1 t2),
          (weighted_same_members env see_keys t1 t2),
          (weighted_same_members econ see_keys t1 t2);
    auto using nonneg_soc, nonneg_env, nonneg_econ.
Qed.

Lemma cat_sus_ignores_repeats_witness :
  cat_sus Demo.see_keys ["SDG1_1"; "SDG2_1"; "SDG1_1"] =
  cat_sus Demo.see_keys ["SDG2_1"; "SDG1_1"].
Proof.
  apply (cat_sus_ignores_repeats Demo.see_keys
           ["SDG1_1"; "SDG2_1"; "SDG1_1"] ["SDG2_1"; "SDG1_1"]).
  - repeat constructor; simpl; lia.
  - intros t. rewrite !list_elem_of_In. simpl. tauto.
Defined.

(** X17. A target id with no row in [see_keys] is not an error and adds
    nothing: it can be dropped from anywhere in the list without changing
    the result, and a list of such ids only (or an empty [see_keys]) gives
    [False] in all three dimensions; no condition on the flags. *)
Theorem cat_sus_skips_unknown_targets (see_keys : list see_row) :
  (∀ t1 u t2, u ∉ map see_id see_keys →
     cat_sus see_keys (t1 ++ u :: t2) = cat_sus see_keys (t1 ++ t2)) ∧
  (∀ target, (∀ t, t ∈ target → t ∉ map see_id see_keys) →
     cat_sus see_keys target = mk_see false false false) ∧
  (∀ target, cat_sus [] target = mk_see false false false).
Proof.
  split; [|split].
  - intros t1 u t2 Hu. rewrite !cat_sus_weighted.
    by rewrite !(weighted_skip _ _ _ _ _ Hu).
  - intros target Hunknown. rewrite cat_sus_weighted.
    by rewrite !(weighted_unknown _ _ _ Hunknown).
  - intros target. reflexivity.
Qed.

(** ** The labellers, beyond one list *)

Lemma table_order_Permutation table ids ids' :
  ids ≡ₚ ids' →
  label_in_table_order table ids = label_in_table_order table ids'.
Proof.
  intros Hp. unfold label_in_table_order. f_equal.
  apply map_ext. intros row. by rewrite (occurrences_Permutation _ _ _ Hp).
Qed.

Lemma table_order_distinct table ids :
  NoDup ids →
  label_in_table_order table ids =
  map snd (filter (fun row => row.1 ∈ ids) table).
Proof.
  intros Hnd. unfold label_in_table_order.
  induction table as [|row table IH]; simpl; [done|].
  rewrite filter_cons. destruct (decide (row.1 ∈ ids)) as [Hin|Hnin].
  - rewrite (occurrences_NoDup _ _ Hnd Hin). simpl. by rewrite IH.
  - apply occurrences_zero in Hnin. rewrite Hnin. simpl. exact IH.
Qed.

Lemma table_order_same_members (table : list (string * string))
    (ids ids' : list string) :
  NoDup ids → (∀ i, i ∈ ids ↔ i ∈ ids') →
  label_in_table_order table ids =
  map snd (filter (fun row => row.1 ∈ ids') table).
Proof.
  intros Hnd Hsame. rewrite table_order_distinct by done. f_equal.
  apply list_filter_iff. intros row. apply Hsame.
Qed.

Lemma table_order_aligned table : ∀ ids,
  NoDup (map fst table) → ids `sublist_of` map fst table →
  Forall2 (fun g d => (g, d) ∈ table) ids (label_in_table_order table ids).
Proof.
  induction table as [|[row_id desc] table IH]; intros ids Hnd Hsub.
  - apply sublist_nil_r in Hsub as ->. constructor.
  - simpl in Hnd, Hsub. apply NoDup_cons in Hnd as [Hfresh Hnd].
    assert (Hweak : ∀ ids',
      Forall2 (fun g d => (g, d) ∈ table) ids' (label_in_table_order table ids') →
      Forall2 (fun g d => (g, d) ∈ (row_id, desc) :: table) ids'
              (label_in_table_order table ids')).
    { intros ids' Hal. eapply Forall2_impl; [exact Hal|].
      intros g d Hin. apply elem_of_cons. by right. }
    apply sublist_cons_r in Hsub as [Hsub | (ids' & -> & Hsub)].
    + assert (Hz : occurrences row_id ids = 0%nat).
      { apply occurrences_zero. intros Hin. apply Hfresh.
        by apply (elem_of_sublist ids). }
      unfold label_in_table_order. simpl. rewrite Hz. simpl.
      apply Hweak, IH; done.
    + assert (Hz : occurrences row_id ids' = 0%nat).
      { apply occurrences_zero. intros Hin. apply Hfresh.
        by apply (elem_of_sublist ids'). }
      unfold label_in_table_order. simpl.
      rewrite occurrences_cons, decide_True, Hz by done. simpl.
      constructor; [apply elem_of_cons; by left|].
      change (concat (map (fun row : string * string =>
                replicate (occurrences row.1 (row_id :: ids')) row.2) table))
        with (label_in_table_order table ([] ++ row_id :: ids')).
      rewrite table_order_skip by done. simpl.
      apply Hweak, IH; done.
Qed.

(** X18. The output of the labellers does not depend on the order of the
    input ids: rearranging the input gives the same list of descriptions. *)
Theorem labels_ignore_input_order
    (table : list (string * string)) (ids ids' : list string) :
  ids ≡ₚ ids' →
  label_sdg table ids = label_sdg table ids' ∧
  label_target table ids = label_target table ids'.
Proof.
  intros Hp. rewrite ?label_sdg_spec, ?label_target_spec.
  split; by apply table_order_Permutation.
Qed.

Lemma labels_ignore_input_order_witness :
  label_sdg Demo.tar_desc ["SDG2_1"; "SDG1_1"] =
    label_sdg Demo.tar_desc ["SDG1_1"; "SDG2_1"] ∧
  label_target Demo.tar_desc ["SDG2_1"; "SDG1_1"] =
    label_target Demo.tar_desc ["SDG1_1"; "SDG2_1"].
Proof.
  apply (labels_ignore_input_order Demo.tar_desc
           ["SDG2_1"; "SDG1_1"] ["SDG1_1"; "SDG2_1"]).
  apply Permutation_swap.
Defined.

(** X19. On a list of ids without repetition (as [id_sus] returns them) the
    labellers give the descriptions of the table rows whose id is in the
    list, row after row in table order; so there are at most as many
    descriptions as rows in the table. *)
Theorem labels_of_distinct_ids
    (table : list (string * string)) (ids : list string) :
  NoDup ids →
  label_sdg table ids = map snd (filter (fun row => row.1 ∈ ids) table) ∧
  label_target table ids = map snd (filter (fun row => row.1 ∈ ids) table) ∧
  (length (label_sdg table ids) ≤ length table)%nat ∧
  (length (label_target table ids) ≤ length table)%nat.
Proof.
  intros Hnd. rewrite ?label_sdg_spec, ?label_target_spec.
  rewrite table_order_distinct by done.
  repeat split; rewrite length_map; apply length_filter.
Qed.

Lemma labels_of_distinct_ids_witness :
  label_sdg Demo.goal_desc ["SDG2"; "SDG5"; "SDG1"] = ["No poverty"; "Zero hunger"] ∧
  label_sdg Demo.goal_desc ["SDG2"; "SDG5"; "SDG1"] =
    map snd (filter (fun row => row.1 ∈ ["SDG2"; "SDG5"; "SDG1"]) Demo.goal_desc).
Proof.
  split; [reflexivity|].
  apply (labels_of_distinct_ids Demo.goal_desc ["SDG2"; "SDG5"; "SDG1"]).
  repeat (apply NoDup_cons_2; [not_among|]). apply NoDup_nil_2.
Defined.

(** X20. When the table has no id twice and the input lists some of the
    table's ids in table order, the labellers answer position by position:
    the output is as long as the input and its entry at each position is
    the description of the id at that position. *)
Theorem labels_aligned_on_table_ordered_input
    (table : list (string * string)) (ids : list string) :
  NoDup (map fst table) →
  ids `sublist_of` map fst table →
  Forall2 (fun g d => (g, d) ∈ table) ids (label_sdg table ids) ∧
  Forall2 (fun g d => (g, d) ∈ table) ids (label_target table ids) ∧
  length (label_sdg table ids) = length ids ∧
  length (label_target table ids) = length ids.
Proof.
  intros Hnd Hsub. rewrite ?label_sdg_spec, ?label_target_spec.
  pose proof (table_order_aligned table ids Hnd Hsub) as Hal.
  repeat split; try done; symmetry; by eapply Forall2_length.
Qed.

Lemma labels_aligned_on_table_ordered_input_witness :
  label_target Demo.tar_desc ["SDG2_1"] = ["End hunger"] ∧
  Forall2 (fun g d => (g, d) ∈ Demo.tar_desc) ["SDG2_1"]
          (label_target Demo.tar_desc ["SDG2_1"]).
Proof.
  split; [reflexivity|].
  apply (labels_aligned_on_table_ordered_input Demo.tar_desc ["SDG2_1"]).
  - simpl. repeat (apply NoDup_cons_2; [not_among|]). apply NoDup_nil_2.
  - simpl. apply sublist_cons, sublist_skip, sublist_nil.
Defined.

(** ** The classifier *)

Section Classifier.

Variable re_search : string -> string -> option bool.
Variable see_keys : list see_row.
Variables goal_desc tar_desc : list (string * string).

Lemma init_eq text w :
  SeeSus.init re_search see_keys goal_desc tar_desc text w =
  match id_sus re_search text w with
  | (Ok (sdg, target, match_), w') =>
      (Ok (SeeSus.mk sdg target match_
             (label_sdg goal_desc sdg) (label_target tar_desc target)
             (cat_sus see_keys target)), w')
  | (Raise e, w') => (Raise e, w')
  end.
Proof.
  unfold SeeSus.init, bind.
  by destruct (id_sus re_search text w) as [[[[? ?] ?]|e] w'].
Qed.

Lemma init_returns text w obj w' :
  SeeSus.init re_search see_keys goal_desc tar_desc (PyStr text) w
    = (Ok obj, w') →
  id_sus re_search (PyStr text) w
    = (Ok (SeeSus.sdg obj, SeeSus.target obj, SeeSus.match_ obj), w') ∧
  SeeSus.sdg_desc obj = label_sdg goal_desc (SeeSus.sdg obj) ∧
  SeeSus.target_desc obj = label_target tar_desc (SeeSus.target obj) ∧
  SeeSus.see_ obj = cat_sus see_keys (SeeSus.target obj).
Proof.
  rewrite init_eq.
  destruct (id_sus re_search (PyStr text) w) as [[[[s t] m]|e] w1]; [|done].
  by intros [= <- <-].
Qed.

End Classifier.

(** X21. Building a [SeeSus] object fails exactly as [id_sus] does: with
    the [ValueError] of [id_sus] on a value that is not a string, before any
    labelling; on a string it returns an object exactly when the engine
    accepts every pattern of the catalog; and in every case it leaves the
    state (catalog and output) as it was. *)
Theorem init_outcome
    (re_search : string → string → option bool) (see_keys : list see_row)
    (goal_desc tar_desc : list (string * string)) (text : pyval) (w : world) :
  (isinstance_str text = false →
     SeeSus.init re_search see_keys goal_desc tar_desc text w =
       (Raise (ValueError Input_must_be_a_string), w)) ∧
  (∀ s, text = PyStr s →
     (compiles re_search s (SDG_keys w) ↔
      ∃ obj, SeeSus.init re_search see_keys goal_desc tar_desc text w
               = (Ok obj, w))) ∧
  (SeeSus.init re_search see_keys goal_desc tar_desc text w).2 = w.
Proof.
  split; [|split].
  - intros Hns. rewrite init_eq. by destruct text.
  - intros s ->. rewrite init_eq. split.
    + intros Hc. destruct (id_sus_total _ _ _ Hc) as (sd & t & m & ->).
      by eexists.
    + intros [obj Hrun].
      destruct (id_sus re_search (PyStr s) w) as [[[[sd t] m]|e] w1] eqn:Hid;
        [|done].
      by apply id_sus_returns in Hid as (_ & Hc & _).
  - rewrite init_eq.
    assert (Hsame : (id_sus re_search text w).2 = w).
    { destruct text; try reflexivity. rewrite id_sus_str.
      by destruct (id_sus_loop re_search s (SDG_keys w) [] [] [])
        as [[[? ?] ?]|]. }
    by destruct (id_sus re_search text w) as [[[[? ?] ?]|e] w1].
Qed.

(** X22. The descriptions of a [SeeSus] object do not depend on the order
    in which the sets of goals and targets are listed: [sdg_desc] holds the
    descriptions of the rows of [goal_desc] whose id is the goal of a rule
    found in the text, and [target_desc] those of the rows of [tar_desc]
    whose id is the id of such a rule, row after row in table order. *)
Theorem init_descriptions_in_table_order
    (re_search : string → string → option bool) (see_keys : list see_row)
    (goal_desc tar_desc : list (string * string)) (text : string)
    (w w' : world) (obj : SeeSus.t) :
  SeeSus.init re_search see_keys goal_desc tar_desc (PyStr text) w
    = (Ok obj, w') →
  SeeSus.sdg_desc obj =
    map snd (filter (fun row =>
                       row.1 ∈ map (fun item => goal_prefix (SDG_id item))
                                   (hits re_search text (SDG_keys w)))
                    goal_desc) ∧
  SeeSus.target_desc obj =
    map snd (filter (fun row =>
                       row.1 ∈ map SDG_id (hits re_search text (SDG_keys w)))
                    tar_desc).
Proof.
  intros (Hid & -> & -> & _)%init_returns.
  apply id_sus_returns in Hid as (_ & _ & -> & -> & _).
  rewrite label_sdg_spec, label_target_spec.
  split; apply table_order_same_members;
    (apply NoDup_list_set || (intros i; apply elem_of_list_set)).
Qed.

Lemma init_descriptions_in_table_order_witness :
  SeeSus.init Demo.search Demo.see_keys Demo.goal_desc Demo.tar_desc
    (PyStr "end hunger and poverty") Demo.start
    = (Ok (SeeSus.mk ["SDG1"; "SDG2"] ["SDG1_1"; "SDG2_1"] ["indirect"]
             ["No poverty"; "Zero hunger"]
             ["Eradicate extreme poverty"; "End hunger"]
             (mk_see true false true)),
       Demo.start) ∧
  ["No poverty"; "Zero hunger"] =
    map snd (filter (fun row =>
                       row.1 ∈ map (fun item => goal_prefix (SDG_id item))
                                   (hits Demo.search "end hunger and poverty"
                                         (SDG_keys Demo.start)))
                    Demo.goal_desc).
Proof.
  assert (Hrun :
    SeeSus.init Demo.search Demo.see_keys Demo.goal_desc Demo.tar_desc
      (PyStr "end hunger and poverty") Demo.start
      = (Ok (SeeSus.mk ["SDG1"; "SDG2"] ["SDG1_1"; "SDG2_1"] ["indirect"]
               ["No poverty"; "Zero hunger"]
               ["Eradicate extreme poverty"; "End hunger"]
               (mk_see true false true)),
         Demo.start))
    by (vm_compute; reflexivity).
  split; [exact Hrun|].
  exact (proj1 (init_descriptions_in_table_order Demo.search Demo.see_keys
                  Demo.goal_desc Demo.tar_desc "end hunger and poverty"
                  Demo.start Demo.start _ Hrun)).
Defined.

(** X23. From text to dimensions: with non-negative flags, a dimension of
    the [see] attribute of a [SeeSus] object is [True] exactly when some
    rule of the catalog whose pattern is found in the text has, under its
    id, a row in [see_keys] with a nonzero flag for that dimension. *)
Theorem init_see_flags
    (re_search : string → string → option bool) (see_keys : list see_row)
    (goal_desc tar_desc : list (string * string)) (text : string)
    (w w' : world) (obj : SeeSus.t) :
  Forall (fun item => (0 ≤ soc item)%Z ∧ (0 ≤ env item)%Z ∧ (0 ≤ econ item)%Z)
         see_keys →
  SeeSus.init re_search see_keys goal_desc tar_desc (PyStr text) w
    = (Ok obj, w') →
  (social_sustainability (SeeSus.see_ obj) = true ↔
     ∃ item row, item ∈ SDG_keys w ∧
       re_search (SDG_keywords item) text = Some true ∧
       row ∈ see_keys ∧ see_id row = SDG_id item ∧ soc row ≠ 0) ∧
  (environmental_sustainability (SeeSus.see_ obj) = true ↔
     ∃ item row, item ∈ SDG_keys w ∧
       re_search (SDG_keywords item) text = Some true ∧
       row ∈ see_keys ∧ see_id row = SDG_id item ∧ env row ≠ 0) ∧
  (economic_sustainability (SeeSus.see_ obj) = true ↔
     ∃ item row, item ∈ SDG_keys w ∧
       re_search (SDG_keywords item) text = Some true ∧
       row ∈ see_keys ∧ see_id row = SDG_id item ∧ econ row ≠ 0).
Proof.
  intros Hflags (Hid & _ & _ & ->)%init_returns.
  apply id_sus_returns in Hid as (_ & _ & _ & -> & _).
  rewrite cat_sus_weighted. simpl. rewrite !positive_true.
  assert (Hdim : ∀ flag : see_row → Z,
    Forall (fun item => (0 ≤ flag item)%Z) see_keys →
    weighted flag see_keys
      (list_set (map SDG_id (hits re_search text (SDG_keys w)))) > 0 ↔
    ∃ item row, item ∈ SDG_keys w ∧
      re_search (SDG_keywords item) text = Some true ∧
      row ∈ see_keys ∧ see_id row = SDG_id item ∧ flag row ≠ 0).
  { intros flag Hflag. rewrite weighted_positive by done. split.
    - intros (t & row & (item & Hin & Hf & <-)%elem_of_hits_image
                & Hrow & Hsee & Hnz).
      by exists item, row.
    - intros (item & row & Hin & Hf & Hrow & Hsee & Hnz).
      exists (SDG_id item), row. split; [|done].
      apply elem_of_hits_image. by exists item. }
  split; [|split]; apply Hdim;
    auto using nonneg_soc, nonneg_env, nonneg_econ.
Qed.

Lemma init_see_flags_witness :
  SeeSus.init Demo.search Demo.see_keys Demo.goal_desc Demo.tar_desc
    (PyStr "zero hunger") Demo.start
    = (Ok (SeeSus.mk ["SDG2"] ["SDG2_1"] ["indirect"]
             ["Zero hunger"] ["End hunger"] (mk_see true false false)),
       Demo.start) ∧
  (social_sustainability (mk_see true false false) = true ↔
     ∃ item row, item ∈ SDG_keys Demo.start ∧
       Demo.search (SDG_keywords item) "zero hunger" = Some true ∧
       row ∈ Demo.see_keys ∧ see_id row = SDG_id item ∧ soc row ≠ 0).
Proof.
  assert (Hrun :
    SeeSus.init Demo.search Demo.see_keys Demo.goal_desc Demo.tar_desc
      (PyStr "zero hunger") Demo.start
      = (Ok (SeeSus.mk ["SDG2"] ["SDG2_1"] ["indirect"]
               ["Zero hunger"] ["End hunger"] (mk_see true false false)),
         Demo.start))
    by (vm_compute; reflexivity).
  assert (Hflags :
    Forall (fun item => (0 ≤ soc item)%Z ∧ (0 ≤ env item)%Z ∧ (0 ≤ econ item)%Z)
           Demo.see_keys)
    by (repeat constructor; simpl; lia).
  split; [exact Hrun|].
  exact (proj1 (init_see_flags Demo.search Demo.see_keys Demo.goal_desc
                  Demo.tar_desc "zero hunger" Demo.start Demo.start _
                  Hflags Hrun)).
Defined.

(** X24. A text in which no pattern of the catalog is found (the empty
    catalog included) gives the empty [SeeSus] object: no goal, target or
    match type, no description, and [False] in all three dimensions. *)
Theorem init_nothing_found
    (re_search : string → string → option bool) (see_keys : list see_row)
    (goal_desc tar_desc : list (string * string)) (text : string) (w : world) :
  Forall (fun item => re_search (SDG_keywords item) text = Some false)
         (SDG_keys w) →
  SeeSus.init re_search see_keys goal_desc tar_desc (PyStr text) w =
    (Ok (SeeSus.mk [] [] [] [] [] (mk_see false false false)), w).
Proof.
  intros Hnone. rewrite init_eq, (id_sus_nothing _ _ _ Hnone).
  rewrite label_sdg_spec, label_target_spec, cat_sus_weighted.
  rewrite !weighted_nil.
  rewrite !table_order_unknown by (by intros i ?%elem_of_nil).
  reflexivity.
Qed.

Lemma init_nothing_found_witness :
  SeeSus.init Demo.search Demo.see_keys Demo.goal_desc Demo.tar_desc
    (PyStr "") Demo.start =
    (Ok (SeeSus.mk [] [] [] [] [] (mk_see false false false)), Demo.start).
Proof.
  apply (init_nothing_found Demo.search Demo.see_keys Demo.goal_desc
           Demo.tar_desc "" Demo.start).
  repeat constructor.
Defined.
